(** * Hough spiral cleaner: the pipeline of [HoughSpiralCleaner.cpp]

    The functions of [src/HoughSpiralCleaner.cpp] are embedded as Rocq
    functions over lists; a [double] is a primitive binary64 float, an
    [Eigen::Index] an integer of [Z], an Eigen array a list.  The functions of
    the C mathematics library ([std::cos], [std::sin], [std::atan]) are not
    part of the repository and are parameters of the sections below. *)

From Stdlib Require Import ZArith Floats Lia Bool.
From stdpp Require Import list sorting.

(** * Part I: the embedding *)

(** ** Binary64 arithmetic *)

Module IEEE.

(** Conversion of a 64-bit signed integer to [double] (a C++ implicit
    conversion or Eigen's [cast<double>()]), for [|z| < 2^63]. *)
Definition of_Z (z : Z) : float :=
  if (z <? 0)%Z then (- of_uint63 (Uint63.of_Z (- z)))%float
  else of_uint63 (Uint63.of_Z z).

(** Eigen's reductions [a.sum()] and [a.dot(b)] over doubles, accumulated
    from the left. *)
Definition sum (a : list float) : float := foldl PrimFloat.add 0%float a.

Definition dot (a b : list float) : float :=
  sum (zip_with PrimFloat.mul a b).

End IEEE.

(** ** The C mathematics library

    [std::cos], [std::sin] and [std::atan] are parameters of the embedding.
    To evaluate the embedding on concrete inputs, the tables below give the
    binary64 values the C library returns at the arguments the examples use
    ([cos 0.5], [sin 0.5], [atan 1], [atan (-1)], [atan NaN]); an argument
    outside the table yields NaN, which no example reaches. *)

Module Libm.

Definition cos (t : float) : float :=
  if (t =? 0.5)%float then 0x1.c1528065b7d50p-1%float else nan.

Definition sin (t : float) : float :=
  if (t =? 0.5)%float then 0x1.eaee8744b05f0p-2%float else nan.

Definition atan (t : float) : float :=
  if (t =? 1)%float then 0x1.921fb54442d18p-1%float
  else if (t =? -1)%float then (-0x1.921fb54442d18p-1)%float
  else nan.

End Libm.

(** ** The cleaner and its configuration

    The members of [HoughSpiralCleaner] that the functions below read.  The
    two Hough transforms [linHough] and [circHough] are only used by
    [findHoughSpace], which is not embedded. *)

Record HoughSpiralCleaner := {
  numAngleBinsToReduce : Z;
  houghSpaceSliceSize : Z;
  peakWidth : Z;
  minPointsPerLine : Z
}.

(** ** Geometric transform: [findArcLength] *)

Section GeometricTransform.

(** [std::atan] (through [Eigen::atan]). *)
Variable atan : float → float.

(** [xy] is the N×2 array of the points, one row per point; [center] the
    spiral center. *)
Definition findArcLength (xy : list (float * float)) (center : float * float)
  : list float :=
  let xOffset := (λ p, p.1 - center.1)%float <$> xy in
  let yOffset := (λ p, p.2 - center.2)%float <$> xy in
  let rads := zip_with (λ x y, sqrt (x * x + y * y))%float xOffset yOffset in
  let thetas := atan <$> zip_with (λ y x, y / x)%float yOffset xOffset in
  zip_with (λ r t, r * t)%float rads thetas.

(** The arc length of one point, as a function of its two offsets. *)
Definition arcLengthOf (x y : float) : float :=
  (sqrt (x * x + y * y) * atan (y / x))%float.

End GeometricTransform.

(** ** Angle estimator: [findMaxAngleBin] *)

(** Modelled from the spec: the class [HoughSpace] is declared in
    [HoughSpace.h], which is not among the sources.  The two operations
    [findMaxAngleBin] uses are the number of bins [B] of the square
    accumulator and the accumulated weight of the bin at an (angle, radius)
    index pair. *)
Record HoughSpace := {
  getNumBins : Z;
  getValueAtBin : Z → Z → Z
}.

(** A two-component array of bin indices, [Eigen::Array<Eigen::Index, 2, 1>],
    with its coefficient-wise sum and its quotient by a scalar (the integer
    division of C++, which truncates). *)
Abbreviation coefArrayType := (Z * Z)%type (only parsing).

Definition coefAdd (a b : coefArrayType) : coefArrayType :=
  (a.1 + b.1, a.2 + b.2)%Z.

Definition coefQuot (a : coefArrayType) (k : Z) : coefArrayType :=
  (a.1 `quot` k, a.2 `quot` k)%Z.

(** The sum of a list of integers. *)
Definition sumZ (l : list Z) : Z := foldr Z.add 0%Z l.

(** The pairs [(i, j)] in the order of the two nested loops. *)
Definition allBins (numBins : Z) : list coefArrayType :=
  i ← seqZ 0 numBins; (λ j, (i, j)) <$> seqZ 0 numBins.

(** What [std::sort] guarantees for a comparison [comp]: the result is a
    rearrangement of its input in which no element is, by [comp], below an
    earlier one.  The guarantee needs [comp] to be a strict weak ordering,
    that is, "not below" to be total and transitive. *)
Definition notBelow {A} (comp : A → A → bool) (a b : A) : Prop :=
  comp b a = false.

Definition sortsLikeStdSort {A} (sort : list A → (A → A → bool) → list A) : Prop :=
  ∀ l comp,
    sort l comp ≡ₚ l ∧
    (Total (notBelow comp) → Transitive (notBelow comp) →
     StronglySorted (notBelow comp) (sort l comp)).

#[global] Instance notBelow_dec {A} (comp : A → A → bool) (a b : A) :
  Decision (notBelow comp a b).
Proof. unfold notBelow. apply _. Defined.

(** A sort to evaluate with: merge sort. *)
Definition mergeSort {A} (l : list A) (comp : A → A → bool) : list A :=
  merge_sort (notBelow comp) l.

Section AngleEstimator.

(** [std::sort], which leaves the order of equal elements open. *)
Variable std_sort :
  list coefArrayType → (coefArrayType → coefArrayType → bool) → list coefArrayType.

Variable self : HoughSpiralCleaner.

Definition binValueLess (houghSpace : HoughSpace) (idxA idxB : coefArrayType) : bool :=
  (getValueAtBin houghSpace idxA.1 idxA.2 <? getValueAtBin houghSpace idxB.1 idxB.2)%Z.

(** The sorted index list of [findMaxAngleBin] and its last
    [numAngleBinsToReduce] entries. *)
Definition sortedBins (houghSpace : HoughSpace) : list coefArrayType :=
  std_sort (allBins (getNumBins houghSpace)) (binValueLess houghSpace).

Definition topBins (houghSpace : HoughSpace) : list coefArrayType :=
  let indices := sortedBins houghSpace in
  drop (length indices - Z.to_nat (numAngleBinsToReduce self)) indices.

(** [Eigen::floor] leaves the integer quotient as it is. *)
Definition findMaxAngleBin (houghSpace : HoughSpace) : Z :=
  let zeroBin : coefArrayType := (0, 0)%Z in
  let binTotal := foldl coefAdd zeroBin (topBins houghSpace) in
  let meanBin := coefQuot binTotal (numAngleBinsToReduce self) in
  meanBin.1.

End AngleEstimator.

(** ** Peak locator: [findPeakRadiusBins] *)

(** [Eigen::VectorXd::LinSpaced (size, low, high)]: [size] evenly spaced
    doubles from [low] to [high]. *)
Definition LinSpaced (size : Z) (low high : float) : list float :=
  let step :=
    if (size =? 1)%Z then 0%float
    else ((high - low) / IEEE.of_Z (size - 1))%float in
  (λ i, low + IEEE.of_Z i * step)%float <$> seqZ 0 size.

(** [a.segment (start, n)]: the [n] coefficients from position [start] on.
    The block has to lie inside the array; there is no result otherwise. *)
Definition segment (a : list Z) (start n : Z) : option (list Z) :=
  if decide (0 ≤ start ∧ 0 ≤ n ∧ start + n ≤ Z.of_nat (length a))%Z
  then Some (take (Z.to_nat n) (drop (Z.to_nat start) a))
  else None.

(** The vectors [positions] and [values] of a window from [firstPt] to
    [lastPt]. *)
Definition windowPositions (firstPt lastPt : Z) : list float :=
  LinSpaced (lastPt - firstPt + 1) (IEEE.of_Z firstPt) (IEEE.of_Z lastPt).

Definition windowValues (houghSlice : list Z) (firstPt lastPt : Z)
  : option (list float) :=
  (λ v : list Z, IEEE.of_Z <$> v)
    <$> segment houghSlice firstPt (lastPt - firstPt + 1).

Section PeakLocator.

(** [findPeakLocations] is defined in another file of the library, which is
    not among the sources; it is a parameter here. *)
Variable findPeakLocations : list Z → Z → list Z.

Variable self : HoughSpiralCleaner.

(** The bounds [firstPt] and [lastPt] of the window around a peak. *)
Definition peakWindow (rows pkIdx : Z) : Z * Z :=
  let firstPt := Z.max (pkIdx - peakWidth self) 0 in
  let lastPt := Z.max (pkIdx + peakWidth self) (rows - 1) in
  (firstPt, lastPt).

(** The body of the loop over the peaks: the center of gravity that is
    pushed for the peak at [pkIdx]. *)
Definition peakCtrOfGrav (houghSlice : list Z) (pkIdx : Z) : option float :=
  let '(firstPt, lastPt) := peakWindow (Z.of_nat (length houghSlice)) pkIdx in
  let positions := windowPositions firstPt lastPt in
  values ← windowValues houghSlice firstPt lastPt;
  let peakCtrOfGrav := (IEEE.dot positions values / IEEE.sum values)%float in
  Some peakCtrOfGrav.

Definition findPeakRadiusBins (houghSlice : list Z) : option (list float) :=
  let maxLocs := findPeakLocations houghSlice 2 in
  mapM (peakCtrOfGrav houghSlice) maxLocs.

End PeakLocator.

(** The window and the center of gravity as the specification words them:
    the inclusive range [[max (p - w) 0, min (p + w) (B - 1)]] and the
    quotient of the sum of index × value by the sum of the values over it. *)
Definition peakWindow_spec (w rows pkIdx : Z) : Z * Z :=
  (Z.max (pkIdx - w) 0, Z.min (pkIdx + w) (rows - 1)).

Definition centroid_spec (houghSlice : list Z) (firstPt lastPt : Z) : float :=
  let idx := seqZ firstPt (lastPt - firstPt + 1) in
  let val := (λ i, default 0%Z (houghSlice !! Z.to_nat i)) <$> idx in
  (IEEE.sum (zip_with (λ i v, IEEE.of_Z i * IEEE.of_Z v)%float idx val)
   / IEEE.sum (IEEE.of_Z <$> val))%float.

(** ** Point classifier: [classifyPoints] *)

Record HoughSpiralCleanerResult := {
  labels : list Z;
  distancesToNearestLine : list float
}.

(** The constructor: every point unassigned, at an infinite distance. *)
Definition newResult (numPts : nat) : HoughSpiralCleanerResult :=
  {| labels := replicate numPts (-1)%Z;
     distancesToNearestLine := replicate numPts infinity |}.

(** The state of the classification loop: the result under construction, the
    array [pointsPerLine], and the indices at which [pointsPerLine] was
    accessed outside its bounds.  Eigen checks the index of a coefficient
    access by an assertion only; without it, an access outside the bounds
    touches memory that is not a cell of the array.  Such an access leaves
    the cells as they are here and is recorded. *)
Record ClassifierState := {
  result : HoughSpiralCleanerResult;
  pointsPerLine : list Z;
  outOfRange : list Z
}.

(** [--pointsPerLine (idx)] and [++pointsPerLine (idx)]. *)
Definition updateCount (f : Z → Z) (idx : Z) (st : ClassifierState)
  : ClassifierState :=
  if decide (0 ≤ idx < Z.of_nat (length (pointsPerLine st)))%Z
  then {| result := result st;
          pointsPerLine := alter f (Z.to_nat idx) (pointsPerLine st);
          outOfRange := outOfRange st |}
  else {| result := result st;
          pointsPerLine := pointsPerLine st;
          outOfRange := outOfRange st ++ [idx] |}.

Definition setResult (pointIdx : nat) (lineIdx : Z) (newDist : float)
  (st : ClassifierState) : ClassifierState :=
  {| result :=
       {| labels := <[pointIdx := lineIdx]> (labels (result st));
          distancesToNearestLine :=
            <[pointIdx := newDist]> (distancesToNearestLine (result st)) |};
     pointsPerLine := pointsPerLine st;
     outOfRange := outOfRange st |}.

Section PointClassifier.

(** [std::cos] and [std::sin]. *)
Variable cos sin : float → float.

Variable self : HoughSpiralCleaner.

Definition houghLineFunc (x : list float) (rad theta : float) : list float :=
  (λ xi, (rad - xi * cos theta) / sin theta)%float <$> x.

(** The distances of all points to the line of radius [rad]. *)
Definition lineDistances (xyz : list (float * float * float))
  (arclens : list float) (maxAngle rad : float) : list float :=
  zip_with (λ h a, abs (h - a))%float
    (houghLineFunc ((λ p, p.2) <$> xyz) rad maxAngle) arclens.

(** The body of the loop over the points, for the line [lineIdx].  The
    coefficients [result.labels (pointIdx)] and
    [result.distancesToNearestLine (pointIdx)] exist for every point; the
    coefficient [dist (pointIdx)] exists when the point has an arc length
    (the difference of [houghLineFunc] and [arclens] needs arrays of one
    size), and reads as NaN, which is below nothing, when it has none. *)
Definition assignPoint (lineIdx : Z) (dist : list float)
  (st : ClassifierState) (pointIdx : nat) : ClassifierState :=
  let newDist := default nan (dist !! pointIdx) in
  let oldDist :=
    default nan (distancesToNearestLine (result st) !! pointIdx) in
  if (newDist <? oldDist)%float then
    let oldLineIdx := default (-1)%Z (labels (result st) !! pointIdx) in
    let st := updateCount Z.pred oldLineIdx st in
    let st := updateCount Z.succ lineIdx st in
    setResult pointIdx lineIdx newDist st
  else st.

(** The body of the loop over the lines. *)
Definition processLine (xyz : list (float * float * float))
  (arclens : list float) (maxAngle : float) (radii : list float)
  (st : ClassifierState) (lineIdx : nat) : ClassifierState :=
  let rad := default nan (radii !! lineIdx) in
  let dist := lineDistances xyz arclens maxAngle rad in
  foldl (assignPoint (Z.of_nat lineIdx) dist) st (seq 0 (length xyz)).

(** The state at the end of the first loop of [classifyPoints]. *)
Definition classifyLoop (xyz : list (float * float * float))
  (arclens : list float) (maxAngle : float) (radii : list float)
  : ClassifierState :=
  let numLinesFound := length radii in
  let numPts := length xyz in
  let st := {| result := newResult numPts;
               pointsPerLine := replicate numLinesFound 0%Z;
               outOfRange := [] |} in
  foldl (processLine xyz arclens maxAngle radii) st (seq 0 numLinesFound).

(** The body of the inner loop of the elimination.  The assignment to
    [result.distancesToNearestLine] has no index: it sets every coefficient
    of the array. *)
Definition resetPoint (lineIdx : Z) (res : HoughSpiralCleanerResult)
  (pointIdx : nat) : HoughSpiralCleanerResult :=
  if decide (default (-1)%Z (labels res !! pointIdx) = lineIdx)
  then {| labels := <[pointIdx := (-1)%Z]> (labels res);
          distancesToNearestLine :=
            replicate (length (distancesToNearestLine res)) infinity |}
  else res.

Definition eliminateLine (numPts : nat) (counts : list Z)
  (res : HoughSpiralCleanerResult) (lineIdx : nat) : HoughSpiralCleanerResult :=
  if decide (default 0 (counts !! lineIdx) < minPointsPerLine self)%Z
  then foldl (resetPoint (Z.of_nat lineIdx)) res (seq 0 numPts)
  else res.

(** The second loop of [classifyPoints], from the state the first one
    leaves. *)
Definition eliminate (numLinesFound numPts : nat) (st : ClassifierState)
  : HoughSpiralCleanerResult :=
  foldl (eliminateLine numPts (pointsPerLine st)) (result st)
    (seq 0 numLinesFound).

Definition classifyPoints (xyz : list (float * float * float))
  (arclens : list float) (maxAngle : float) (radii : list float)
  : HoughSpiralCleanerResult :=
  let numLinesFound := length radii in
  let numPts := length xyz in
  eliminate numLinesFound numPts (classifyLoop xyz arclens maxAngle radii).

End PointClassifier.

(** The perpendicular distance of the point (depth, arcLength) to the line
    [depth * cos angle + arcLength * sin angle = radius], from the line
    equation, as the specification words it. *)
Definition perpendicularDistance (c s depth arcLength radius : float) : float :=
  (abs (depth * c + arcLength * s - radius) / sqrt (c * c + s * s))%float.

(** The number of points that carry the label [l]. *)
Definition countLabel (l : Z) (ls : list Z) : Z :=
  Z.of_nat (length (filter (λ x, x = l) ls)).

Definition validLabel (numLines : nat) (l : Z) : Prop :=
  l = (-1)%Z ∨ (0 ≤ l < Z.of_nat numLines)%Z.

(** The distance [classifyPoints] computes between a point [p] of arc length
    [a] and the line of radius [rad]: the value of [houghLineFunc] at the
    depth of the point, minus the arc length, in absolute value. *)
Definition lineDistanceOf (cos sin : float → float) (maxAngle rad : float)
  (p : float * float * float) (a : float) : float :=
  abs ((rad - p.2 * cos maxAngle) / sin maxAngle - a)%float.

(** Whether the elimination step resets the points of label [l] while it
    goes through the lines below [m]: [l] is one of these lines and its count
    is below [minPointsPerLine]. *)
Definition eliminatedBelow (self : HoughSpiralCleaner) (counts : list Z)
  (m : nat) (l : Z) : bool :=
  bool_decide ((0 ≤ l < Z.of_nat m)%Z ∧
               (default 0 (counts !! Z.to_nat l) < minPointsPerLine self)%Z).

Definition eliminated (self : HoughSpiralCleaner) (counts : list Z) (l : Z)
  : bool :=
  eliminatedBelow self counts (length counts) l.

(** The label of a point after the points of the line [lineIdx] are reset. *)
Definition resetLabel (lineIdx : Z) (l : Z) : Z :=
  if decide (l = lineIdx) then (-1)%Z else l.

(** What holds of the state between two iterations of the classification
    loop, for the inputs [xyz], [arclens], [maxAngle] and [radii]. *)
Record classifierInv (cos sin : float → float)
  (xyz : list (float * float * float)) (arclens : list float)
  (maxAngle : float) (radii : list float) (st : ClassifierState) : Prop := {
  inv_labels_length : length (labels (result st)) = length xyz;
  inv_distances_length :
    length (distancesToNearestLine (result st)) = length xyz;
  inv_counts_length : length (pointsPerLine st) = length radii;
  inv_labels_valid : Forall (validLabel (length radii)) (labels (result st));
  inv_counts : ∀ l : nat,
    l < length radii →
    pointsPerLine st !! l = Some (countLabel (Z.of_nat l) (labels (result st)));
  inv_assigned : ∀ (i : nat) (l : Z),
    labels (result st) !! i = Some l → l ≠ (-1)%Z →
    ∃ rad p a,
      radii !! Z.to_nat l = Some rad ∧ xyz !! i = Some p ∧
      arclens !! i = Some a ∧
      distancesToNearestLine (result st) !! i
        = Some (lineDistanceOf cos sin maxAngle rad p a) ∧
      is_finite (lineDistanceOf cos sin maxAngle rad p a) = true;
  inv_unassigned : ∀ i : nat,
    labels (result st) !! i = Some (-1)%Z →
    distancesToNearestLine (result st) !! i = Some infinity;
  inv_outOfRange :
    outOfRange st
    = replicate (length (filter (λ x, x ≠ (-1)%Z) (labels (result st)))) (-1)%Z
}.

(** ** The classification seen from one point

    The label and the distance of one point in a result. *)
Definition pointState (res : HoughSpiralCleanerResult) (i : nat) : Z * float :=
  (default (-1)%Z (labels res !! i),
   default nan (distancesToNearestLine res !! i)).

(** The test and the two assignments of the loop body of [classifyPoints],
    on the label and the distance of the point alone. *)
Definition betterLine (best : Z * float) (lineIdx : Z) (newDist : float)
  : Z * float :=
  if (newDist <? best.2)%float then (lineIdx, newDist) else best.

(** The label and the distance a point ends with when its distances to the
    lines, in the order of the lines, are [dists]; [lineIdx] is the index of
    the first of these lines. *)
Fixpoint bestLineFrom (lineIdx : nat) (best : Z * float) (dists : list float)
  : Z * float :=
  match dists with
  | [] => best
  | d :: dists =>
      bestLineFrom (S lineIdx) (betterLine best (Z.of_nat lineIdx) d) dists
  end.

Definition bestLine (dists : list float) : Z * float :=
  bestLineFrom 0 ((-1)%Z, infinity) dists.

(** ** Angle estimator: [findMaxAngleSlice] *)

(** Modelled from the spec: the type [HoughSpace::ConstDataBlockType] of the
    block that [getAngularSlice] returns is declared in [HoughSpace.h], which
    is not among the sources.  A block has a number of rows (angle bins), a
    number of columns (radius bins) and a coefficient at each position. *)
Record ConstDataBlockType := {
  blockRows : Z;
  blockCols : Z;
  blockCoeff : Z → Z → Z
}.

(** [block.colwise ().sum ()]: the sum of every column. *)
Definition colwiseSum (block : ConstDataBlockType) : list Z :=
  (λ j, sumZ ((λ i, blockCoeff block i j) <$> seqZ 0 (blockRows block)))
    <$> seqZ 0 (blockCols block).

Section AngleSlice.

(** [HoughSpace::getAngularSlice], which is not among the sources. *)
Variable getAngularSlice : HoughSpace → Z → Z → ConstDataBlockType.

Variable self : HoughSpiralCleaner.

(** There is no result when the assertion on the shape of the block
    fails. *)
Definition findMaxAngleSlice (houghSpace : HoughSpace) (maxAngleBin : Z)
  : option (list Z) :=
  let block :=
    getAngularSlice houghSpace (maxAngleBin - houghSpaceSliceSize self)
      (2 * houghSpaceSliceSize self) in
  if decide (blockRows block = (2 * houghSpaceSliceSize self)%Z ∧
             blockCols block = getNumBins houghSpace)
  then Some (colwiseSum block)
  else None.

End AngleSlice.

(** * Part II: properties *)

(** ** Binary64 arithmetic *)

Module IEEEFacts.

Lemma Prim2SF_infinity : Prim2SF infinity = S754_infinity false.
Proof. reflexivity. Qed.

Lemma Prim2SF_nan : Prim2SF nan = S754_nan.
Proof. reflexivity. Qed.

Lemma SFeqb_refl_finite s m e :
  SFeqb (S754_finite s m e) (S754_finite s m e) = true.
Proof.
  unfold SFeqb, SFcompare. rewrite Z.compare_refl, Pos.compare_cont_refl.
  by destruct s.
Qed.

Lemma is_finite_spec (x : float) :
  is_finite x = match Prim2SF x with
                | S754_zero _ | S754_finite _ _ _ => true
                | _ => false
                end.
Proof.
  unfold is_finite, is_nan, is_infinity.
  rewrite !FloatAxioms.eqb_spec, FloatAxioms.abs_spec, Prim2SF_infinity.
  destruct (Prim2SF x) as [s|s| |s m e]; simpl; try done.
  - by destruct s.
  - by rewrite SFeqb_refl_finite.
Qed.

Lemma is_nan_spec (x : float) :
  is_nan x = match Prim2SF x with S754_nan => true | _ => false end.
Proof.
  unfold is_nan. rewrite FloatAxioms.eqb_spec.
  destruct (Prim2SF x) as [s|s| |s m e]; simpl; try done.
  - by destruct s.
  - by rewrite SFeqb_refl_finite.
Qed.

Lemma is_nan_eq (x : float) : is_nan x = true → x = nan.
Proof.
  rewrite is_nan_spec. intros H. apply Prim2SF_inj. rewrite Prim2SF_nan.
  by destruct (Prim2SF x).
Qed.

(** A value [abs e] that compares strictly below another double is finite: it
    is not NaN (a comparison with NaN is false), not [+inf] (nothing is above
    it) and not [-inf] (it carries no sign). *)
Lemma abs_ltb_finite (e y : float) :
  (abs e <? y)%float = true → is_finite (abs e) = true.
Proof.
  rewrite FloatAxioms.ltb_spec, is_finite_spec, FloatAxioms.abs_spec.
  destruct (Prim2SF e) as [s|s| |s m k]; simpl; try done.
  unfold SFltb. simpl. by destruct (Prim2SF y) as [?|[]| |? ? ?].
Qed.

Lemma div_opp_opp (x y : float) : (- x / - y = x / y)%float.
Proof.
  apply Prim2SF_inj. rewrite !FloatAxioms.div_spec, !FloatAxioms.opp_spec.
  unfold SF64div.
  destruct (Prim2SF x) as [sx|sx| |sx mx ex], (Prim2SF y) as [sy|sy| |sy my ey];
    simpl; rewrite ?xorb_negb_negb; done.
Qed.

Lemma mul_opp_opp (x y : float) : (- x * - y = x * y)%float.
Proof.
  apply Prim2SF_inj. rewrite !FloatAxioms.mul_spec, !FloatAxioms.opp_spec.
  unfold SF64mul.
  destruct (Prim2SF x) as [sx|sx| |sx mx ex], (Prim2SF y) as [sy|sy| |sy my ey];
    simpl; rewrite ?xorb_negb_negb; done.
Qed.

Lemma is_zero_spec (x : float) :
  is_zero x = true → ∃ s, Prim2SF x = S754_zero s.
Proof.
  unfold is_zero. rewrite FloatAxioms.eqb_spec.
  change (Prim2SF zero) with (S754_zero false).
  destruct (Prim2SF x) as [s|s| |s m e]; simpl; try done;
    [by eexists|by destruct s..].
Qed.

(** [0/0] is NaN, whatever the signs of the zeros. *)
Lemma div_zero_zero (x y : float) :
  is_zero x = true → is_zero y = true → (y / x)%float = nan.
Proof.
  intros [sx Hx]%is_zero_spec [sy Hy]%is_zero_spec.
  apply Prim2SF_inj. by rewrite FloatAxioms.div_spec, Hx, Hy.
Qed.

Lemma sqrt_sq_zero (x y : float) :
  is_zero x = true → is_zero y = true → sqrt (x * x + y * y)%float = zero.
Proof.
  intros [sx Hx]%is_zero_spec [sy Hy]%is_zero_spec.
  apply Prim2SF_inj.
  rewrite FloatAxioms.sqrt_spec, FloatAxioms.add_spec, !FloatAxioms.mul_spec, Hx, Hy.
  by destruct sx, sy.
Qed.

Lemma mul_nan_r (x : float) : (x * nan)%float = nan.
Proof.
  apply Prim2SF_inj. rewrite FloatAxioms.mul_spec, Prim2SF_nan.
  unfold SF64mul. by destruct (Prim2SF x).
Qed.

(** NaN is below nothing. *)
Lemma ltb_nan_l (y : float) : (nan <? y)%float = false.
Proof. by rewrite FloatAxioms.ltb_spec, Prim2SF_nan. Qed.

(** A quotient by a zero is NaN or an infinity, never a finite double. *)
Lemma div_by_zero_not_finite (x y : float) :
  is_zero y = true → is_finite (x / y) = false.
Proof.
  intros [sy Hy]%is_zero_spec.
  rewrite is_finite_spec, FloatAxioms.div_spec, Hy.
  by destruct (Prim2SF x).
Qed.

End IEEEFacts.

(** ** Geometric transform *)

Section GeometricTransformFacts.

Variable atan : float → float.

Lemma findArcLength_fmap xy center :
  findArcLength atan xy center =
  (λ p, arcLengthOf atan (p.1 - center.1) (p.2 - center.2))%float <$> xy.
Proof.
  unfold findArcLength, arcLengthOf.
  induction xy as [|p xy IH]; [done|]. cbn. f_equal. exact IH.
Qed.

Lemma findArcLength_length xy center :
  length (findArcLength atan xy center) = length xy.
Proof. by rewrite findArcLength_fmap, length_fmap. Qed.

Lemma findArcLength_lookup xy center i p :
  xy !! i = Some p →
  findArcLength atan xy center !! i =
  Some (arcLengthOf atan (p.1 - center.1) (p.2 - center.2))%float.
Proof. intros H. by rewrite findArcLength_fmap, list_lookup_fmap, H. Qed.

(** The arc length does not change when both offsets change their sign. *)
Lemma arcLengthOf_opp (x y : float) :
  arcLengthOf atan (- x) (- y) = arcLengthOf atan x y.
Proof.
  unfold arcLengthOf.
  by rewrite !IEEEFacts.mul_opp_opp, IEEEFacts.div_opp_opp.
Qed.

End GeometricTransformFacts.

(** C9: two points of a cloud whose offsets from the center are (x, y) and
    (-x, -y) get the same arc length from [findArcLength], namely
    sqrt (x² + y²) · atan (y / x): the transform does not see a reflection of
    the offset through the center.  The equality is one of doubles and holds
    for every arctangent function; it needs no condition on x. *)
Theorem findArcLength_reflection (atan : float → float)
    (xy : list (float * float)) (center : float * float)
    (i j : nat) (p q : float * float) :
  xy !! i = Some p →
  xy !! j = Some q →
  (q.1 - center.1 = - (p.1 - center.1))%float →
  (q.2 - center.2 = - (p.2 - center.2))%float →
  findArcLength atan xy center !! j = findArcLength atan xy center !! i ∧
  findArcLength atan xy center !! i =
    Some (sqrt ((p.1 - center.1) * (p.1 - center.1)
                + (p.2 - center.2) * (p.2 - center.2))
          * atan ((p.2 - center.2) / (p.1 - center.1)))%float.
Proof.
  intros Hp Hq Hx Hy.
  rewrite (findArcLength_lookup atan _ _ _ _ Hp).
  rewrite (findArcLength_lookup atan _ _ _ _ Hq).
  rewrite Hx, Hy, arcLengthOf_opp. done.
Qed.

Lemma findArcLength_reflection_witness :
  let xy := [(3, 4); (1, 2)]%float in
  let center := (2, 3)%float in
  findArcLength Libm.atan xy center !! 1 = findArcLength Libm.atan xy center !! 0 ∧
  findArcLength Libm.atan xy center !! 0 =
    Some (sqrt ((3 - 2) * (3 - 2) + (4 - 3) * (4 - 3))
          * Libm.atan ((4 - 3) / (3 - 2)))%float.
Proof.
  exact (findArcLength_reflection Libm.atan [(3, 4); (1, 2)]%float (2, 3)%float
           0 1 (3, 4)%float (1, 2)%float eq_refl eq_refl eq_refl eq_refl).
Defined.

(** C5, as the code has it: [findArcLength] has no failure and drops no point.
    It returns one arc length per input point, and for a point whose two
    offsets from the center are zero that arc length is
    sqrt (0) · atan (0 / 0) = 0 · atan (NaN), which is NaN for an arctangent
    that maps NaN to NaN, as the one of the C library does. *)
Theorem findArcLength_zero_offset_nan (atan : float → float)
    (xy : list (float * float)) (center : float * float)
    (i : nat) (p : float * float) :
  atan nan = nan →
  xy !! i = Some p →
  is_zero (p.1 - center.1) = true →
  is_zero (p.2 - center.2) = true →
  length (findArcLength atan xy center) = length xy ∧
  findArcLength atan xy center !! i = Some nan.
Proof.
  intros Hatan Hp Hx Hy. split; [apply findArcLength_length|].
  rewrite (findArcLength_lookup atan _ _ _ _ Hp). f_equal.
  unfold arcLengthOf.
  by rewrite IEEEFacts.sqrt_sq_zero, IEEEFacts.div_zero_zero, Hatan,
    IEEEFacts.mul_nan_r.
Qed.

Lemma findArcLength_zero_offset_nan_witness :
  let xy := [(3, 4); (2, 3)]%float in
  let center := (2, 3)%float in
  length (findArcLength Libm.atan xy center) = length xy ∧
  findArcLength Libm.atan xy center !! 1 = Some nan.
Proof.
  exact (findArcLength_zero_offset_nan Libm.atan [(3, 4); (2, 3)]%float
           (2, 3)%float 1 (2, 3)%float eq_refl eq_refl eq_refl eq_refl).
Defined.

(** C5 fails on the code: for the single point (2, 3) and the center (2, 3)
    both offsets are zero, and [findArcLength] returns an array that holds
    one entry for the point, which is NaN. *)
Lemma findArcLength_zero_offset_counterexample :
  let xy := [(2, 3)]%float in
  let center := (2, 3)%float in
  xy !! 0 = Some (2, 3)%float ∧
  (2 - center.1 = 0)%float ∧ (3 - center.2 = 0)%float ∧
  findArcLength Libm.atan xy center = [nan].
Proof. repeat split; reflexivity. Qed.

(** ** Angle estimator *)

Lemma elem_of_allBins (numBins i j : Z) :
  (i, j) ∈ allBins numBins ↔ (0 ≤ i < numBins ∧ 0 ≤ j < numBins)%Z.
Proof.
  unfold allBins. rewrite list_elem_of_bind. split.
  - intros (i' & Hj & Hi). apply list_elem_of_fmap in Hj as (j' & Heq & Hj).
    injection Heq as -> ->. apply elem_of_seqZ in Hi, Hj. lia.
  - intros [Hi Hj]. exists i. split.
    + apply list_elem_of_fmap. exists j. split; [done|]. apply elem_of_seqZ. lia.
    + apply elem_of_seqZ. lia.
Qed.

Lemma length_pairs (l r : list Z) :
  length (i ← l; (λ j, (i, j)) <$> r) = (length l * length r)%nat.
Proof.
  induction l as [|i l IH]; [done|].
  rewrite bind_cons, length_app, length_fmap, IH. simpl. lia.
Qed.

Lemma length_allBins (numBins : Z) :
  length (allBins numBins) = (Z.to_nat numBins * Z.to_nat numBins)%nat.
Proof. unfold allBins. by rewrite length_pairs, length_seqZ. Qed.

Lemma foldl_coefAdd (acc : coefArrayType) (l : list coefArrayType) :
  foldl coefAdd acc l =
  (acc.1 + sumZ (fst <$> l), acc.2 + sumZ (snd <$> l))%Z.
Proof.
  revert acc. induction l as [|x l IH]; intros [a b]; simpl.
  - unfold sumZ. simpl. by rewrite !Z.add_0_r.
  - rewrite IH. unfold coefAdd, sumZ. simpl. by rewrite !Z.add_assoc.
Qed.

Lemma sumZ_bounds (l : list Z) (lo hi : Z) :
  Forall (λ x, lo ≤ x ≤ hi)%Z l →
  (Z.of_nat (length l) * lo ≤ sumZ l ≤ Z.of_nat (length l) * hi)%Z.
Proof.
  unfold sumZ. induction 1 as [|x l Hx _ IH]; simpl; [lia|].
  rewrite Nat2Z.inj_succ. lia.
Qed.

(** Comparing bins by their value is a strict weak ordering. *)
Lemma binValueLess_notBelow houghSpace (a b : coefArrayType) :
  notBelow (binValueLess houghSpace) a b ↔
  (getValueAtBin houghSpace a.1 a.2 ≤ getValueAtBin houghSpace b.1 b.2)%Z.
Proof. unfold notBelow, binValueLess. rewrite Z.ltb_ge. done. Qed.

Lemma binValueLess_total houghSpace :
  Total (notBelow (binValueLess houghSpace)).
Proof. intros a b. rewrite !binValueLess_notBelow. lia. Qed.

Lemma binValueLess_transitive houghSpace :
  Transitive (notBelow (binValueLess houghSpace)).
Proof. intros a b c. rewrite !binValueLess_notBelow. lia. Qed.

Lemma StronglySorted_weaken {A} (R R' : relation A) (l : list A) :
  (∀ a b, R a b → R' a b) → StronglySorted R l → StronglySorted R' l.
Proof.
  intros HR. induction 1 as [|a l _ IH Hall]; constructor; [done|].
  eapply Forall_impl; [exact Hall|]. intros b. apply HR.
Qed.

Lemma mergeSort_sortsLikeStdSort {A} : sortsLikeStdSort (@mergeSort A).
Proof.
  intros l comp. unfold mergeSort. split.
  - apply merge_sort_Permutation.
  - intros Htot Htrans. by apply StronglySorted_merge_sort.
Qed.

Section AngleEstimatorFacts.

Variable std_sort :
  list coefArrayType → (coefArrayType → coefArrayType → bool) → list coefArrayType.
Hypothesis std_sort_ok : sortsLikeStdSort std_sort.

Variable self : HoughSpiralCleaner.
Variable houghSpace : HoughSpace.

Lemma sortedBins_Permutation :
  sortedBins std_sort houghSpace ≡ₚ allBins (getNumBins houghSpace).
Proof. apply std_sort_ok. Qed.

Lemma sortedBins_sorted :
  StronglySorted
    (λ a b, getValueAtBin houghSpace a.1 a.2 ≤ getValueAtBin houghSpace b.1 b.2)%Z
    (sortedBins std_sort houghSpace).
Proof.
  eapply StronglySorted_weaken.
  - intros a b. apply binValueLess_notBelow.
  - apply std_sort_ok; [apply binValueLess_total|apply binValueLess_transitive].
Qed.

Lemma length_sortedBins :
  length (sortedBins std_sort houghSpace) =
  (Z.to_nat (getNumBins houghSpace) * Z.to_nat (getNumBins houghSpace))%nat.
Proof. by rewrite sortedBins_Permutation, length_allBins. Qed.

Lemma topBins_suffix :
  topBins std_sort self houghSpace `suffix_of` sortedBins std_sort houghSpace.
Proof. apply suffix_drop. Qed.

Lemma length_topBins :
  (0 ≤ getNumBins houghSpace)%Z →
  (0 ≤ numAngleBinsToReduce self
     ≤ getNumBins houghSpace * getNumBins houghSpace)%Z →
  length (topBins std_sort self houghSpace) = Z.to_nat (numAngleBinsToReduce self).
Proof.
  intros HB HK. unfold topBins.
  rewrite length_drop, length_sortedBins, <- Z2Nat.inj_mul by done. lia.
Qed.

Lemma topBins_in_range :
  Forall (λ b, 0 ≤ b.1 < getNumBins houghSpace ∧ 0 ≤ b.2 < getNumBins houghSpace)%Z
    (topBins std_sort self houghSpace).
Proof.
  apply Forall_forall. intros [i j] Hin. apply elem_of_allBins.
  rewrite <- sortedBins_Permutation.
  destruct topBins_suffix as [k ->]. apply elem_of_app. by right.
Qed.

(** The two sums of [binTotal] stay between 0 and K · (B - 1): they fit an
    [Eigen::Index] whenever this product does. *)
Lemma binTotal_bounds :
  (0 ≤ getNumBins houghSpace)%Z →
  (0 ≤ numAngleBinsToReduce self
     ≤ getNumBins houghSpace * getNumBins houghSpace)%Z →
  let binTotal := foldl coefAdd (0, 0)%Z (topBins std_sort self houghSpace) in
  (0 ≤ binTotal.1
     ≤ numAngleBinsToReduce self * (getNumBins houghSpace - 1))%Z ∧
  (0 ≤ binTotal.2
     ≤ numAngleBinsToReduce self * (getNumBins houghSpace - 1))%Z.
Proof.
  intros HB HK. cbn zeta. rewrite foldl_coefAdd. simpl.
  pose proof (length_topBins HB HK) as Hlen.
  pose proof topBins_in_range as Hrange.
  assert (Forall (λ x, 0 ≤ x ≤ getNumBins houghSpace - 1)%Z
            (fst <$> topBins std_sort self houghSpace)) as Hfst.
  { apply Forall_fmap. eapply Forall_impl; [exact Hrange|].
    intros [i j]; simpl. lia. }
  assert (Forall (λ x, 0 ≤ x ≤ getNumBins houghSpace - 1)%Z
            (snd <$> topBins std_sort self houghSpace)) as Hsnd.
  { apply Forall_fmap. eapply Forall_impl; [exact Hrange|].
    intros [i j]; simpl. lia. }
  apply sumZ_bounds in Hfst, Hsnd.
  rewrite length_fmap, Hlen, Z2Nat.id in Hfst, Hsnd by lia. lia.
Qed.

End AngleEstimatorFacts.

(** C8: for a B×B Hough space and 1 ≤ K ≤ B² (K = numAngleBinsToReduce),
    [findMaxAngleBin] works on a list that holds all (angleBin, radiusBin)
    pairs in ascending order of their accumulator value, takes its last K
    entries, and returns the floored mean of their angle-bin components; the
    value it returns lies in [0, B).  This holds for every sort that meets
    the guarantee of [std::sort], whatever order it gives to equal values. *)
Theorem findMaxAngleBin_mean_of_top_bins
    (std_sort : list coefArrayType → (coefArrayType → coefArrayType → bool)
                → list coefArrayType)
    (self : HoughSpiralCleaner) (houghSpace : HoughSpace) :
  sortsLikeStdSort std_sort →
  (0 ≤ getNumBins houghSpace)%Z →
  (1 ≤ numAngleBinsToReduce self
     ≤ getNumBins houghSpace * getNumBins houghSpace)%Z →
  sortedBins std_sort houghSpace ≡ₚ allBins (getNumBins houghSpace) ∧
  StronglySorted
    (λ a b, getValueAtBin houghSpace a.1 a.2 ≤ getValueAtBin houghSpace b.1 b.2)%Z
    (sortedBins std_sort houghSpace) ∧
  topBins std_sort self houghSpace `suffix_of` sortedBins std_sort houghSpace ∧
  length (topBins std_sort self houghSpace)
    = Z.to_nat (numAngleBinsToReduce self) ∧
  findMaxAngleBin std_sort self houghSpace
    = (sumZ (fst <$> topBins std_sort self houghSpace)
       `div` numAngleBinsToReduce self)%Z ∧
  (0 ≤ findMaxAngleBin std_sort self houghSpace < getNumBins houghSpace)%Z.
Proof.
  intros Hsort HB HK.
  pose proof (length_topBins std_sort Hsort self houghSpace HB ltac:(lia)) as Hlen.
  pose proof (topBins_in_range std_sort Hsort self houghSpace) as Hrange.
  assert (Forall (λ x, 0 ≤ x ≤ getNumBins houghSpace - 1)%Z
            (fst <$> topBins std_sort self houghSpace)) as Hfst.
  { apply Forall_fmap. eapply Forall_impl; [exact Hrange|].
    intros [i j]; simpl. lia. }
  apply sumZ_bounds in Hfst. rewrite length_fmap, Hlen in Hfst.
  rewrite Z2Nat.id in Hfst by lia.
  assert (findMaxAngleBin std_sort self houghSpace
          = (sumZ (fst <$> topBins std_sort self houghSpace)
             `div` numAngleBinsToReduce self)%Z) as Hmean.
  { unfold findMaxAngleBin, coefQuot. rewrite foldl_coefAdd. simpl.
    apply Z.quot_div_nonneg; lia. }
  split; [by apply sortedBins_Permutation|].
  split; [by apply sortedBins_sorted|].
  split; [apply topBins_suffix|].
  split; [done|]. split; [done|].
  rewrite Hmean. split.
  - apply Z.div_pos; lia.
  - apply Z.div_lt_upper_bound; nia.
Qed.

Lemma findMaxAngleBin_mean_of_top_bins_witness :
  let self := {| numAngleBinsToReduce := 2; houghSpaceSliceSize := 1;
                 peakWidth := 1; minPointsPerLine := 2 |} in
  let houghSpace := {| getNumBins := 3; getValueAtBin := λ i j, (i * j)%Z |} in
  findMaxAngleBin mergeSort self houghSpace
    = (sumZ (fst <$> topBins mergeSort self houghSpace) `div` 2)%Z ∧
  (0 ≤ findMaxAngleBin mergeSort self houghSpace < 3)%Z.
Proof.
  intros self houghSpace.
  refine (let H := findMaxAngleBin_mean_of_top_bins mergeSort self houghSpace
                     mergeSort_sortsLikeStdSort _ _ in _).
  - destruct H as (_ & _ & _ & _ & Hmean & Hbound). exact (conj Hmean Hbound).
  Unshelve. all: simpl; lia.
Defined.

(** ** Peak locator *)

Section PeakLocatorFacts.

Variable findPeakLocations : list Z → Z → list Z.
Variable self : HoughSpiralCleaner.

Lemma segment_Some (a : list Z) (start n : Z) (v : list Z) :
  segment a start n = Some v →
  (0 ≤ start ∧ 0 ≤ n ∧ start + n ≤ Z.of_nat (length a))%Z ∧
  length v = Z.to_nat n.
Proof.
  unfold segment. case_decide as Hr; [|done]. intros [= <-].
  split; [done|]. rewrite length_take, length_drop. lia.
Qed.

(** The upper bound of the window is never below the last bin. *)
Lemma peakWindow_last (rows pkIdx : Z) :
  (peakWindow self rows pkIdx).1 = Z.max (pkIdx - peakWidth self) 0 ∧
  (peakWindow self rows pkIdx).2 = Z.max (pkIdx + peakWidth self) (rows - 1) ∧
  (rows - 1 ≤ (peakWindow self rows pkIdx).2)%Z.
Proof. unfold peakWindow. simpl. lia. Qed.

(** The loop body yields, whenever the window lies inside the slice, the
    quotient of the two reductions over the window. *)
Lemma peakCtrOfGrav_Some (houghSlice : list Z) (pkIdx : Z) (c : float) :
  peakCtrOfGrav self houghSlice pkIdx = Some c ↔
  ∃ values,
    windowValues houghSlice
      (peakWindow self (Z.of_nat (length houghSlice)) pkIdx).1
      (peakWindow self (Z.of_nat (length houghSlice)) pkIdx).2 = Some values ∧
    c = (IEEE.dot
           (windowPositions
              (peakWindow self (Z.of_nat (length houghSlice)) pkIdx).1
              (peakWindow self (Z.of_nat (length houghSlice)) pkIdx).2)
           values
         / IEEE.sum values)%float.
Proof.
  unfold peakCtrOfGrav.
  destruct (peakWindow self (Z.of_nat (length houghSlice)) pkIdx)
    as [firstPt lastPt]; simpl.
  destruct (windowValues houghSlice firstPt lastPt) as [values|]; simpl.
  - split.
    + intros [= <-]. by exists values.
    + intros (v & [= <-] & ->). done.
  - split; [done|]. by intros (v & ? & _).
Qed.

(** Whenever the loop body yields a value, the window it took ends at the
    last bin of the slice. *)
Lemma peakCtrOfGrav_window (houghSlice : list Z) (pkIdx : Z) (c : float) :
  peakCtrOfGrav self houghSlice pkIdx = Some c →
  peakWindow self (Z.of_nat (length houghSlice)) pkIdx
  = (Z.max (pkIdx - peakWidth self) 0, Z.of_nat (length houghSlice) - 1)%Z.
Proof.
  intros (values & Hv & _)%peakCtrOfGrav_Some. unfold windowValues in Hv.
  destruct (segment _ _ _) as [v|] eqn:Hseg; [|done].
  apply segment_Some in Hseg as [Hr _]. revert Hr.
  unfold peakWindow. simpl. intros Hr. f_equal. lia.
Qed.

Lemma findPeakRadiusBins_Some (houghSlice : list Z) (ctrs : list float) :
  findPeakRadiusBins findPeakLocations self houghSlice = Some ctrs ↔
  Forall2 (λ pkIdx c, peakCtrOfGrav self houghSlice pkIdx = Some c)
    (findPeakLocations houghSlice 2%Z) ctrs.
Proof. unfold findPeakRadiusBins. apply mapM_Some. Qed.

End PeakLocatorFacts.

(** C3 fails on the code: the upper bound of the window is taken with [max],
    not [min].  For the slice [0 0 1 5 1 0 0 1 0 0] (B = 10), the peak at bin
    3 and peakWidth 1, the code takes the window [2, 9], which runs to the
    end of the slice, and pushes the center of gravity 3.5; the window of the
    claim is [2, 4] and its center of gravity is 3. *)
Theorem findPeakRadiusBins_window_upper_bound :
  let self := {| numAngleBinsToReduce := 2; houghSpaceSliceSize := 1;
                 peakWidth := 1; minPointsPerLine := 2 |} in
  let houghSlice := [0; 0; 1; 5; 1; 0; 0; 1; 0; 0]%Z in
  peakWindow self 10 3 = (2, 9)%Z ∧
  peakWindow_spec 1 10 3 = (2, 4)%Z ∧
  peakCtrOfGrav self houghSlice 3 = Some 3.5%float ∧
  centroid_spec houghSlice 2 4 = 3%float ∧
  findPeakRadiusBins (λ _ _, [3; 7]%Z) self houghSlice
    = Some [3.5; 7]%float.
Proof. repeat split; reflexivity. Qed.

(** C6, as the code has it: [findPeakRadiusBins] rejects no peak.  When it
    returns, it returns one entry per peak location, in their order, each
    entry the quotient of [positions.dot (values)] by [values.sum ()] over
    the window of its peak.  For a peak whose window sum is zero the entry is
    that quotient by zero, which is not a finite double: it is NaN when the
    dot product is zero too, and an infinity otherwise. *)
Theorem findPeakRadiusBins_zero_window_kept
    (findPeakLocations : list Z → Z → list Z) (self : HoughSpiralCleaner)
    (houghSlice : list Z) (ctrs : list float) :
  findPeakRadiusBins findPeakLocations self houghSlice = Some ctrs →
  length ctrs = length (findPeakLocations houghSlice 2%Z) ∧
  ∀ (k : nat) (pkIdx : Z),
    findPeakLocations houghSlice 2%Z !! k = Some pkIdx →
    ∃ values,
      let firstPt := (peakWindow self (Z.of_nat (length houghSlice)) pkIdx).1 in
      let lastPt := (peakWindow self (Z.of_nat (length houghSlice)) pkIdx).2 in
      let positions := windowPositions firstPt lastPt in
      windowValues houghSlice firstPt lastPt = Some values ∧
      ctrs !! k = Some (IEEE.dot positions values / IEEE.sum values)%float ∧
      (is_zero (IEEE.sum values) = true →
       is_finite (IEEE.dot positions values / IEEE.sum values) = false ∧
       (is_zero (IEEE.dot positions values) = true →
        ctrs !! k = Some nan)).
Proof.
  intros Hall%findPeakRadiusBins_Some. split.
  - symmetry. by eapply Forall2_length.
  - intros k pkIdx Hk.
    destruct (Forall2_lookup_l _ _ _ _ _ Hall Hk) as (c & Hc & Hctr).
    apply peakCtrOfGrav_Some in Hctr as (values & Hv & ->).
    exists values. simpl. split; [done|]. split; [done|].
    intros Hz. split; [by apply IEEEFacts.div_by_zero_not_finite|].
    intros Hd. by rewrite Hc, IEEEFacts.div_zero_zero.
Qed.

Lemma findPeakRadiusBins_zero_window_kept_witness :
  let self := {| numAngleBinsToReduce := 2; houghSpaceSliceSize := 1;
                 peakWidth := 1; minPointsPerLine := 2 |} in
  let houghSlice := [0; 5; 0; 0; 0; 0; 0]%Z in
  length [1; nan]%float = length [1; 4]%Z ∧
  ∃ values,
    windowValues houghSlice 3 6 = Some values ∧
    [1; nan]%float !! 1%nat
      = Some (IEEE.dot (windowPositions 3 6) values / IEEE.sum values)%float.
Proof.
  intros self houghSlice.
  destruct (findPeakRadiusBins_zero_window_kept (λ _ _, [1; 4]%Z) self houghSlice
              [1; nan]%float eq_refl) as [Hlen Hpeak].
  split; [exact Hlen|].
  destruct (Hpeak 1%nat 4%Z eq_refl) as (values & Hv & Hc & _).
  exists values. exact (conj Hv Hc).
Defined.

(** C6 fails on the code: in the slice [0 5 0 0 0 0 0] with peakWidth 1, the
    window of a peak at bin 4 holds zeros only; for the peak locations 1 and 4
    the code returns two entries, and the entry of the peak at bin 4 is
    NaN. *)
Lemma findPeakRadiusBins_zero_window_counterexample :
  let self := {| numAngleBinsToReduce := 2; houghSpaceSliceSize := 1;
                 peakWidth := 1; minPointsPerLine := 2 |} in
  let houghSlice := [0; 5; 0; 0; 0; 0; 0]%Z in
  peakWindow self 7 4 = (3, 6)%Z ∧
  windowValues houghSlice 3 6 = Some [0; 0; 0; 0]%float ∧
  peakCtrOfGrav self houghSlice 4 = Some nan ∧
  findPeakRadiusBins (λ _ _, [1; 4]%Z) self houghSlice = Some [1; nan]%float.
Proof. repeat split; reflexivity. Qed.

(** ** Point classifier: the classification loop *)

Lemma foldl_invariant {S X} (P : S → Prop) (f : S → X → S) (l : list X) (s : S) :
  P s → (∀ s x, x ∈ l → P s → P (f s x)) → P (foldl f s l).
Proof.
  revert s. induction l as [|x l IH]; intros s Hs Hstep; simpl; [done|].
  apply IH.
  - apply Hstep; [left|done].
  - intros s' x' Hx'. apply Hstep. by right.
Qed.

Lemma countLabel_cons (l x : Z) (ls : list Z) :
  countLabel l (x :: ls)
  = ((if decide (x = l) then 1 else 0) + countLabel l ls)%Z.
Proof.
  unfold countLabel. rewrite filter_cons.
  destruct (decide (x = l)); simpl; lia.
Qed.

(** Writing [new] over [old] moves one point from the count of [old] to the
    count of [new]. *)
Lemma countLabel_insert (l : Z) (ls : list Z) (i : nat) (old new : Z) :
  ls !! i = Some old →
  countLabel l (<[i := new]> ls)
  = (countLabel l ls - (if decide (old = l) then 1 else 0)
     + (if decide (new = l) then 1 else 0))%Z.
Proof.
  revert i. induction ls as [|x ls IH]; intros [|i] Hi; simplify_eq/=.
  - rewrite !countLabel_cons. lia.
  - rewrite !countLabel_cons, (IH i Hi). lia.
Qed.

Lemma countLabel_replicate_ne (l x : Z) (n : nat) :
  x ≠ l → countLabel l (replicate n x) = 0%Z.
Proof.
  intros Hne. induction n as [|n IH]; [done|]. simpl.
  rewrite countLabel_cons, IH. by destruct (decide (x = l)).
Qed.

Lemma length_filter_insert_assigned (ls : list Z) (i : nat) (old new : Z) :
  ls !! i = Some old → new ≠ (-1)%Z →
  length (filter (λ x, x ≠ (-1)%Z) (<[i := new]> ls))
  = (length (filter (λ x, x ≠ (-1)%Z) ls)
     + (if decide (old = (-1)%Z) then 1 else 0))%nat.
Proof.
  intros Hi Hnew. revert i Hi.
  induction ls as [|x ls IH]; intros [|i] Hi; simplify_eq/=.
  - rewrite !filter_cons. repeat case_decide; simpl; try lia; done.
  - rewrite !filter_cons. specialize (IH i Hi).
    destruct (decide (x ≠ (-1)%Z)); simpl; lia.
Qed.

Section ClassifierFacts.

Variable cos sin : float → float.
Variable self : HoughSpiralCleaner.
Variable xyz : list (float * float * float).
Variable arclens : list float.
Variable maxAngle : float.
Variable radii : list float.

Lemma lineDistances_lookup (rad : float) (i : nat) (d : float) :
  lineDistances cos sin xyz arclens maxAngle rad !! i = Some d ↔
  ∃ p a, xyz !! i = Some p ∧ arclens !! i = Some a ∧
         d = lineDistanceOf cos sin maxAngle rad p a.
Proof.
  unfold lineDistances, houghLineFunc, lineDistanceOf.
  rewrite lookup_zip_with_Some. setoid_rewrite list_lookup_fmap.
  setoid_rewrite list_lookup_fmap. split.
  - intros (h & a & -> & Hh & Ha).
    destruct (xyz !! i) as [p|]; simplify_eq/=. by exists p, a.
  - intros (p & a & Hp & Ha & ->). rewrite Hp. simpl. by eexists _, a.
Qed.

Lemma classifierInv_init :
  classifierInv cos sin xyz arclens maxAngle radii
    {| result := newResult (length xyz);
       pointsPerLine := replicate (length radii) 0%Z;
       outOfRange := [] |}.
Proof.
  split; simpl.
  - apply length_replicate.
  - apply length_replicate.
  - apply length_replicate.
  - apply Forall_replicate. by left.
  - intros l Hl. rewrite lookup_replicate_2 by done.
    rewrite countLabel_replicate_ne; [done|lia].
  - intros i l [-> _]%lookup_replicate. done.
  - intros i [_ Hi]%lookup_replicate. by rewrite lookup_replicate_2.
  - induction (length xyz) as [|n IH]; [done|]. simpl.
    rewrite filter_cons. case_decide; done.
Qed.

Lemma updateCount_inside (f : Z → Z) (idx : Z) (st : ClassifierState) :
  (0 ≤ idx < Z.of_nat (length (pointsPerLine st)))%Z →
  updateCount f idx st =
  {| result := result st;
     pointsPerLine := alter f (Z.to_nat idx) (pointsPerLine st);
     outOfRange := outOfRange st |}.
Proof. intros Hr. unfold updateCount. by rewrite decide_True. Qed.

Lemma updateCount_outside (f : Z → Z) (idx : Z) (st : ClassifierState) :
  ¬ (0 ≤ idx < Z.of_nat (length (pointsPerLine st)))%Z →
  updateCount f idx st =
  {| result := result st;
     pointsPerLine := pointsPerLine st;
     outOfRange := outOfRange st ++ [idx] |}.
Proof. intros Hr. unfold updateCount. by rewrite decide_False. Qed.

(** A point is reassigned when its new distance is strictly below its old
    one: the count of its old label goes down by one if that label is a
    line, the count of the current line goes up by one, and the label and the
    distance of the point are written together.  When the old label is the
    sentinel -1, the decrement is an access of [pointsPerLine] at index -1. *)
Lemma assignPoint_better (lineIdx : Z) (dist : list float)
    (st : ClassifierState) (pointIdx : nat) (newDist oldDist : float) (old : Z) :
  dist !! pointIdx = Some newDist →
  distancesToNearestLine (result st) !! pointIdx = Some oldDist →
  labels (result st) !! pointIdx = Some old →
  (newDist <? oldDist)%float = true →
  (0 ≤ lineIdx < Z.of_nat (length (pointsPerLine st)))%Z →
  old = (-1)%Z ∨ (0 ≤ old < Z.of_nat (length (pointsPerLine st)))%Z →
  assignPoint lineIdx dist st pointIdx =
  {| result :=
       {| labels := <[pointIdx := lineIdx]> (labels (result st));
          distancesToNearestLine :=
            <[pointIdx := newDist]> (distancesToNearestLine (result st)) |};
     pointsPerLine :=
       alter Z.succ (Z.to_nat lineIdx)
         (if decide (old = (-1)%Z) then pointsPerLine st
          else alter Z.pred (Z.to_nat old) (pointsPerLine st));
     outOfRange :=
       if decide (old = (-1)%Z) then outOfRange st ++ [(-1)%Z]
       else outOfRange st |}.
Proof.
  intros Hnew Hold Hlab Hlt Hline Hvalid.
  unfold assignPoint. rewrite Hnew, Hold, Hlab. simpl. rewrite Hlt.
  destruct (decide (old = (-1)%Z)) as [->|Hne].
  - rewrite (updateCount_outside _ (-1)) by lia.
    rewrite updateCount_inside by (simpl; lia). done.
  - rewrite (updateCount_inside _ old) by lia.
    rewrite updateCount_inside by (simpl; rewrite length_alter; lia). done.
Qed.

Lemma assignPoint_worse (lineIdx : Z) (dist : list float)
    (st : ClassifierState) (pointIdx : nat) :
  (default nan (dist !! pointIdx)
   <? default nan (distancesToNearestLine (result st) !! pointIdx))%float
  = false →
  assignPoint lineIdx dist st pointIdx = st.
Proof. intros Hlt. unfold assignPoint. by rewrite Hlt. Qed.

(** One iteration of the loop over the points keeps the invariant. *)
Lemma assignPoint_inv (lineIdx : nat) (rad : float) (st : ClassifierState)
    (pointIdx : nat) :
  radii !! lineIdx = Some rad →
  classifierInv cos sin xyz arclens maxAngle radii st →
  classifierInv cos sin xyz arclens maxAngle radii
    (assignPoint (Z.of_nat lineIdx)
       (lineDistances cos sin xyz arclens maxAngle rad) st pointIdx).
Proof.
  intros Hrad Hinv.
  destruct (default nan (lineDistances cos sin xyz arclens maxAngle rad !! pointIdx)
            <? default nan (distancesToNearestLine (result st) !! pointIdx))%float
    eqn:Hlt; [|by rewrite assignPoint_worse].
  destruct (lineDistances cos sin xyz arclens maxAngle rad !! pointIdx)
    as [newDist|] eqn:Hnew; simpl in Hlt;
    [|by rewrite IEEEFacts.ltb_nan_l in Hlt].
  pose proof Hnew as (p & a & Hp & Ha & HnewDist)%lineDistances_lookup.
  pose proof (lookup_lt_Some _ _ _ Hp) as Hpt.
  pose proof (lookup_lt_Some _ _ _ Hrad) as Hline.
  destruct Hinv as [Hll Hdl Hcl Hvalid Hcounts Hassigned Hunassigned Hlog].
  destruct (lookup_lt_is_Some_2 (distancesToNearestLine (result st)) pointIdx)
    as [oldDist Hold]; [lia|].
  destruct (lookup_lt_is_Some_2 (labels (result st)) pointIdx)
    as [old Hlab]; [lia|].
  rewrite Hold in Hlt. simpl in Hlt.
  pose proof (Forall_lookup_1 _ _ _ _ Hvalid Hlab) as Hold_valid.
  rewrite (assignPoint_better _ _ _ _ newDist oldDist old Hnew Hold Hlab Hlt)
    by (rewrite Hcl; (lia || exact Hold_valid)).
  split; simpl.
  - by rewrite length_insert.
  - by rewrite length_insert.
  - rewrite length_alter. case_decide; [done|by rewrite length_alter].
  - apply Forall_insert; [done|]. right. lia.
  - intros l Hl. rewrite (countLabel_insert _ _ _ old) by done.
    assert (∀ j, j < length radii →
              (if decide (old = (-1)%Z) then pointsPerLine st
               else alter Z.pred (Z.to_nat old) (pointsPerLine st)) !! j
              = Some (countLabel (Z.of_nat j) (labels (result st))
                      - (if decide (old = Z.of_nat j) then 1 else 0))%Z) as Hdec.
    { intros j Hj. destruct (decide (old = (-1)%Z)) as [->|Hne].
      - rewrite (Hcounts j Hj). f_equal. rewrite decide_False by lia. lia.
      - destruct Hold_valid as [?|Hrange]; [done|].
        rewrite list_lookup_alter.
        destruct (decide (Z.to_nat old = j)) as [E|E].
        + rewrite E, (Hcounts j Hj). simpl. by rewrite decide_True by lia.
        + rewrite (Hcounts j Hj). f_equal. rewrite decide_False by lia. lia. }
    rewrite list_lookup_alter, Nat2Z.id.
    destruct (decide (lineIdx = l)) as [E|E].
    + rewrite (Hdec lineIdx Hline). subst l. simpl. f_equal.
      rewrite (decide_True (P := Z.of_nat lineIdx = Z.of_nat lineIdx)) by done.
      lia.
    + rewrite (Hdec l Hl). f_equal.
      rewrite (decide_False (P := Z.of_nat lineIdx = Z.of_nat l)) by lia.
      lia.
  - intros i l Hi Hl. destruct (decide (i = pointIdx)) as [->|Hne].
    + rewrite list_lookup_insert_eq in Hi by lia. injection Hi as <-.
      rewrite Nat2Z.id. exists rad, p, a.
      rewrite list_lookup_insert_eq by lia. rewrite <- HnewDist.
      repeat split; try done.
      rewrite HnewDist in Hlt |- *. unfold lineDistanceOf in *.
      by eapply IEEEFacts.abs_ltb_finite.
    + rewrite list_lookup_insert_ne in Hi by done.
      rewrite list_lookup_insert_ne by done. by apply Hassigned.
  - intros i Hi. destruct (decide (i = pointIdx)) as [->|Hne].
    + rewrite list_lookup_insert_eq in Hi by lia. injection Hi as Hi. lia.
    + rewrite list_lookup_insert_ne in Hi by done.
      rewrite list_lookup_insert_ne by done. by apply Hunassigned.
  - rewrite (length_filter_insert_assigned _ _ old) by (done || lia).
    rewrite Hlog. destruct (decide (old = (-1)%Z)).
    + by rewrite Nat.add_1_r, replicate_S_end.
    + by rewrite Nat.add_0_r.
Qed.

Lemma processLine_inv (st : ClassifierState) (lineIdx : nat) :
  lineIdx < length radii →
  classifierInv cos sin xyz arclens maxAngle radii st →
  classifierInv cos sin xyz arclens maxAngle radii
    (processLine cos sin xyz arclens maxAngle radii st lineIdx).
Proof.
  intros Hline Hinv. unfold processLine.
  destruct (lookup_lt_is_Some_2 radii lineIdx Hline) as [rad Hrad].
  rewrite Hrad. simpl.
  apply foldl_invariant; [done|].
  intros st' pointIdx _. by apply assignPoint_inv.
Qed.

(** The invariant holds when the classification loop ends. *)
Lemma classifyLoop_inv :
  classifierInv cos sin xyz arclens maxAngle radii
    (classifyLoop cos sin xyz arclens maxAngle radii).
Proof.
  unfold classifyLoop. apply foldl_invariant; [apply classifierInv_init|].
  intros st lineIdx Hin. apply processLine_inv.
  apply elem_of_seq in Hin. lia.
Qed.

End ClassifierFacts.

(** ** Point classifier: the elimination step *)

Lemma resetPoint_hit (lineIdx : Z) (res : HoughSpiralCleanerResult) (k : nat) :
  labels res !! k = Some lineIdx →
  resetPoint lineIdx res k =
  {| labels := <[k := (-1)%Z]> (labels res);
     distancesToNearestLine :=
       replicate (length (distancesToNearestLine res)) infinity |}.
Proof. intros Hk. unfold resetPoint. rewrite Hk. simpl. by rewrite decide_True. Qed.

Lemma resetPoint_miss (lineIdx : Z) (res : HoughSpiralCleanerResult) (k : nat) (x : Z) :
  labels res !! k = Some x → x ≠ lineIdx →
  resetPoint lineIdx res k = res.
Proof. intros Hk Hx. unfold resetPoint. rewrite Hk. simpl. by rewrite decide_False. Qed.

(** The inner loop of the elimination, after the points below [k]: their
    labels are reset where they were [lineIdx], and if there was one such
    point every distance is infinite. *)
Lemma resetPoints_prefix (lineIdx : Z) (res : HoughSpiralCleanerResult) (k : nat) :
  k ≤ length (labels res) →
  let res' := foldl (resetPoint lineIdx) res (seq 0 k) in
  length (labels res') = length (labels res) ∧
  (∀ i, labels res' !! i
        = if decide (i < k) then resetLabel lineIdx <$> labels res !! i
          else labels res !! i) ∧
  distancesToNearestLine res'
  = if decide (lineIdx ∈ take k (labels res))
    then replicate (length (distancesToNearestLine res)) infinity
    else distancesToNearestLine res.
Proof.
  induction k as [|k IH]; intros Hk.
  - split; [done|]. split; [done|].
    destruct (decide (lineIdx ∈ take 0 (labels res))) as [Hin|]; [|done].
    by apply elem_of_nil in Hin.
  - rewrite seq_S, foldl_app. cbn [foldl Nat.add].
    destruct IH as (Hlen & Hlab & Hdist); [lia|].
    set (res' := foldl (resetPoint lineIdx) res (seq 0 k)) in *.
    destruct (lookup_lt_is_Some_2 (labels res) k) as [x Hx]; [lia|].
    assert (labels res' !! k = Some x) as Hx'.
    { rewrite Hlab, decide_False by lia. done. }
    rewrite (take_S_r _ _ _ Hx).
    destruct (decide (x = lineIdx)) as [->|Hne].
    + rewrite (resetPoint_hit _ _ _ Hx'). simpl.
      split; [by rewrite length_insert|]. split.
      * intros i. rewrite list_lookup_insert, Hlab.
        destruct (decide (k = i)) as [->|Hki].
        -- rewrite decide_True, decide_True by lia. rewrite Hx. simpl.
           unfold resetLabel. by rewrite decide_True.
        -- rewrite decide_False by (by intros [? _]).
           destruct (decide (i < k)).
           ++ by rewrite decide_True by lia.
           ++ by rewrite decide_False by lia.
      * rewrite decide_True by (apply elem_of_app; right; by left).
        f_equal. rewrite Hdist.
        destruct (decide (lineIdx ∈ take k (labels res)));
          [by rewrite length_replicate|done].
    + rewrite (resetPoint_miss _ _ _ _ Hx' Hne).
      split; [done|]. split.
      * intros i. rewrite Hlab. destruct (decide (k = i)) as [<-|Hki].
        -- rewrite decide_False, decide_True by lia. rewrite Hx. simpl.
           unfold resetLabel. by rewrite decide_False.
        -- destruct (decide (i < k)).
           ++ by rewrite decide_True by lia.
           ++ by rewrite decide_False by lia.
      * rewrite Hdist. destruct (decide (lineIdx ∈ take k (labels res))).
        -- rewrite decide_True; [done|]. apply elem_of_app. by left.
        -- rewrite decide_False; [done|].
           intros [?|Hin%list_elem_of_singleton]%elem_of_app; done.
Qed.

(** The inner loop of the elimination, as a whole. *)
Lemma resetPoints_all (lineIdx : Z) (res : HoughSpiralCleanerResult) :
  let res' := foldl (resetPoint lineIdx) res (seq 0 (length (labels res))) in
  labels res' = resetLabel lineIdx <$> labels res ∧
  distancesToNearestLine res'
  = if decide (lineIdx ∈ labels res)
    then replicate (length (distancesToNearestLine res)) infinity
    else distancesToNearestLine res.
Proof.
  destruct (resetPoints_prefix lineIdx res (length (labels res)))
    as (Hlen & Hlab & Hdist); [done|].
  simpl. split.
  - apply list_eq. intros i. rewrite Hlab, list_lookup_fmap.
    destruct (decide (i < length (labels res))) as [Hi|Hi]; [done|].
    by rewrite lookup_ge_None_2 by lia.
  - by rewrite Hdist, take_ge.
Qed.

Section EliminationFacts.

Variable self : HoughSpiralCleaner.
Variable counts : list Z.

Lemma eliminatedBelow_S (m : nat) (l : Z) :
  eliminatedBelow self counts (S m) l = true ↔
  eliminatedBelow self counts m l = true ∨
  (l = Z.of_nat m ∧ (default 0 (counts !! m) < minPointsPerLine self)%Z).
Proof.
  unfold eliminatedBelow. rewrite !bool_decide_eq_true. split.
  - intros [Hl Hsmall]. destruct (decide (l = Z.of_nat m)) as [->|Hne].
    + right. by rewrite Nat2Z.id in Hsmall.
    + left. split; [lia|done].
  - intros [[Hl Hsmall]|[-> Hsmall]].
    + split; [lia|done].
    + rewrite Nat2Z.id. split; [lia|done].
Qed.

Lemma eliminatedBelow_self (m : nat) :
  eliminatedBelow self counts m (Z.of_nat m) = false.
Proof. unfold eliminatedBelow. apply bool_decide_eq_false. lia. Qed.

Lemma resetLabel_eliminatedBelow (m : nat) (l : Z) :
  (default 0 (counts !! m) < minPointsPerLine self)%Z →
  resetLabel (Z.of_nat m)
    (if eliminatedBelow self counts m l then (-1)%Z else l)
  = if eliminatedBelow self counts (S m) l then (-1)%Z else l.
Proof.
  intros Hsmall. pose proof (eliminatedBelow_S m l) as HS.
  unfold resetLabel.
  destruct (eliminatedBelow self counts m l) eqn:Hm,
    (eliminatedBelow self counts (S m) l) eqn:HSm.
  - by rewrite decide_False by lia.
  - by assert (false = true) by (apply HS; by left).
  - destruct (proj1 HS eq_refl) as [?|[-> _]]; [done|]. by rewrite decide_True.
  - rewrite decide_False; [done|]. intros ->.
    by assert (false = true) by (apply HS; by right).
Qed.

Lemma eliminatedBelow_keep (m : nat) (l : Z) :
  ¬ (default 0 (counts !! m) < minPointsPerLine self)%Z →
  eliminatedBelow self counts (S m) l = eliminatedBelow self counts m l.
Proof.
  intros Hbig. pose proof (eliminatedBelow_S m l) as HS.
  destruct (eliminatedBelow self counts m l) eqn:Hm,
    (eliminatedBelow self counts (S m) l) eqn:HSm; try done.
  - by assert (false = true) by (apply HS; by left).
  - destruct (proj1 HS eq_refl) as [?|[_ ?]]; done.
Qed.

(** The outer loop of the elimination, after the lines below [m]. *)
Lemma eliminateLines_prefix (res : HoughSpiralCleanerResult) (m : nat) :
  let res' :=
    foldl (eliminateLine self (length (labels res)) counts) res (seq 0 m) in
  let reset := ∃ l, l ∈ labels res ∧ eliminatedBelow self counts m l = true in
  labels res'
  = (λ l, if eliminatedBelow self counts m l then (-1)%Z else l) <$> labels res ∧
  (reset → distancesToNearestLine res'
           = replicate (length (distancesToNearestLine res)) infinity) ∧
  (¬ reset → distancesToNearestLine res' = distancesToNearestLine res).
Proof.
  induction m as [|m IH]; cbn zeta.
  - split; [|split].
    + cbn [seq foldl]. transitivity (id <$> labels res);
        [by rewrite list_fmap_id|].
      apply list_fmap_ext.
      intros i l _. unfold eliminatedBelow. by rewrite bool_decide_false by lia.
    + intros (l & _ & Hl). unfold eliminatedBelow in Hl.
      rewrite bool_decide_false in Hl by lia. done.
    + done.
  - rewrite seq_S, foldl_app. cbn [foldl Nat.add].
    cbn zeta in IH. destruct IH as (Hlab & Hyes & Hno).
    set (res' := foldl (eliminateLine self (length (labels res)) counts) res
                   (seq 0 m)) in *.
    assert (length (distancesToNearestLine res')
            = length (distancesToNearestLine res)) as Hlen.
    { destruct (decide (Exists (λ l, eliminatedBelow self counts m l = true)
                          (labels res))) as [He|He]; rewrite Exists_exists in He.
      - by rewrite (Hyes He), length_replicate.
      - by rewrite (Hno He). }
    unfold eliminateLine.
    destruct (decide (default 0 (counts !! m) < minPointsPerLine self)%Z)
      as [Hsmall|Hbig].
    + assert (length (labels res) = length (labels res')) as ->.
      { by rewrite Hlab, length_fmap. }
      destruct (resetPoints_all (Z.of_nat m) res') as [Hlab' Hdist'].
      cbn zeta in Hlab', Hdist'.
      assert (Z.of_nat m ∈ labels res' ↔ Z.of_nat m ∈ labels res) as Hin.
      { rewrite Hlab, list_elem_of_fmap. split.
        - intros (l & Hl & Hlin).
          destruct (eliminatedBelow self counts m l); [lia|by subst].
        - intros Hlin. exists (Z.of_nat m). by rewrite eliminatedBelow_self. }
      split; [|split].
      * rewrite Hlab', Hlab, <- list_fmap_compose. apply list_fmap_ext.
        intros i l _. by apply resetLabel_eliminatedBelow.
      * intros (l & Hlin & [Hl|[-> _]]%eliminatedBelow_S); rewrite Hdist'.
        -- rewrite Hyes by eauto. rewrite length_replicate.
           by destruct (decide _).
        -- rewrite decide_True by (by apply Hin). by rewrite Hlen.
      * intros Hnone. rewrite Hdist', decide_False, Hno; [done| |].
        -- intros (l & Hlin & Hl). apply Hnone. exists l. split; [done|].
           apply eliminatedBelow_S. by left.
        -- intros Hmin%Hin. apply Hnone. exists (Z.of_nat m). split; [done|].
           apply eliminatedBelow_S. by right.
    + split; [|split].
      * rewrite Hlab. apply list_fmap_ext. intros i l _.
        by rewrite eliminatedBelow_keep.
      * intros (l & Hlin & Hl). apply Hyes. exists l.
        by rewrite <- eliminatedBelow_keep.
      * intros Hnone. apply Hno. intros (l & Hlin & Hl). apply Hnone.
        exists l. by rewrite eliminatedBelow_keep.
Qed.

(** The elimination step as a whole: the points whose line has too few
    points lose their label, and if there is one such point every distance of
    the result, not only its own, becomes infinite. *)
Lemma eliminate_spec (st : ClassifierState) :
  pointsPerLine st = counts →
  let res' :=
    eliminate self (length counts) (length (labels (result st))) st in
  let reset :=
    ∃ l, l ∈ labels (result st) ∧ eliminated self counts l = true in
  labels res'
  = (λ l, if eliminated self counts l then (-1)%Z else l) <$> labels (result st) ∧
  (reset → distancesToNearestLine res'
           = replicate (length (distancesToNearestLine (result st))) infinity) ∧
  (¬ reset →
   distancesToNearestLine res' = distancesToNearestLine (result st)).
Proof.
  intros Hcounts. unfold eliminate, eliminated. rewrite Hcounts.
  apply (eliminateLines_prefix (result st) (length counts)).
Qed.

End EliminationFacts.

(** ** Point classifier: the result of [classifyPoints] *)

Lemma result_eq (r1 r2 : HoughSpiralCleanerResult) :
  labels r1 = labels r2 →
  distancesToNearestLine r1 = distancesToNearestLine r2 →
  r1 = r2.
Proof. destruct r1, r2. simpl. by intros -> ->. Qed.

Section ClassifyPointsFacts.

Variable cos sin : float → float.
Variable self : HoughSpiralCleaner.
Variable xyz : list (float * float * float).
Variable arclens : list float.
Variable maxAngle : float.
Variable radii : list float.

(** What [classifyPoints] returns, from the state at the end of the
    classification loop. *)
Lemma classifyPoints_spec :
  let st := classifyLoop cos sin xyz arclens maxAngle radii in
  let res := classifyPoints cos sin self xyz arclens maxAngle radii in
  let reset :=
    ∃ l, l ∈ labels (result st) ∧ eliminated self (pointsPerLine st) l = true in
  labels res
  = (λ l, if eliminated self (pointsPerLine st) l then (-1)%Z else l)
      <$> labels (result st) ∧
  (reset → distancesToNearestLine res = replicate (length xyz) infinity) ∧
  (¬ reset → res = result st).
Proof.
  cbn zeta. unfold classifyPoints.
  pose proof (classifyLoop_inv cos sin xyz arclens maxAngle radii) as Hinv.
  set (st := classifyLoop cos sin xyz arclens maxAngle radii) in *.
  rewrite <- (inv_counts_length _ _ _ _ _ _ _ Hinv).
  destruct (eliminate_spec self (pointsPerLine st) st eq_refl)
    as (Hlab & Hyes & Hno).
  cbn zeta in Hlab, Hyes, Hno.
  rewrite (inv_labels_length _ _ _ _ _ _ _ Hinv) in Hlab, Hyes, Hno.
  rewrite (inv_distances_length _ _ _ _ _ _ _ Hinv) in Hyes.
  split; [done|]. split; [done|].
  intros Hnone. specialize (Hno Hnone).
  assert (labels (eliminate self (length (pointsPerLine st)) (length xyz) st)
          = labels (result st)) as Hsame.
  { rewrite Hlab. transitivity (id <$> labels (result st));
      [|by rewrite list_fmap_id].
    apply list_fmap_ext. intros i l Hl.
    destruct (eliminated self (pointsPerLine st) l) eqn:He; [|done].
    destruct Hnone. exists l. split; [|done]. by eapply list_elem_of_lookup_2. }
  by apply result_eq.
Qed.

End ClassifyPointsFacts.

(** C1, as the code has it: at the end of the classification loop, a point i
    whose label l is not -1 has the distance
    |houghLineFunc (depth i, radii l, angle) - arcLength i|
    = |(radius - depth · cos angle) / sin angle - arcLength|,
    and this distance is finite.  It is the offset of the point from the line
    along the arc-length axis, not the perpendicular distance.  The result
    [classifyPoints] returns is the state of the end of the loop whenever the
    elimination step resets no point. *)
Theorem classifyPoints_assigned_distance (cos sin : float → float)
    (self : HoughSpiralCleaner) (xyz : list (float * float * float))
    (arclens : list float) (maxAngle : float) (radii : list float)
    (i : nat) (l : Z) :
  let st := classifyLoop cos sin xyz arclens maxAngle radii in
  labels (result st) !! i = Some l →
  l ≠ (-1)%Z →
  ∃ rad p a,
    radii !! Z.to_nat l = Some rad ∧ xyz !! i = Some p ∧ arclens !! i = Some a ∧
    distancesToNearestLine (result st) !! i
      = Some (abs ((rad - p.2 * cos maxAngle) / sin maxAngle - a))%float ∧
    is_finite (abs ((rad - p.2 * cos maxAngle) / sin maxAngle - a))%float = true ∧
    (¬ (∃ l', l' ∈ labels (result st) ∧
              eliminated self (pointsPerLine st) l' = true) →
     classifyPoints cos sin self xyz arclens maxAngle radii = result st).
Proof.
  intros st Hl Hne.
  pose proof (classifyLoop_inv cos sin xyz arclens maxAngle radii) as Hinv.
  destruct (inv_assigned _ _ _ _ _ _ _ Hinv i l Hl Hne)
    as (rad & p & a & Hrad & Hp & Ha & Hd & Hfin).
  exists rad, p, a. repeat split; try done.
  apply classifyPoints_spec.
Qed.

Lemma classifyPoints_assigned_distance_witness :
  let self := {| numAngleBinsToReduce := 2; houghSpaceSliceSize := 1;
                 peakWidth := 1; minPointsPerLine := 2 |} in
  let xyz := [(1, 0, 0); (0, 1, 0); (1, 1, 0)]%float in
  let arclens := [2; 2.5; 10]%float in
  let radii := [1; 5]%float in
  let st := classifyLoop Libm.cos Libm.sin xyz arclens 0.5 radii in
  ∃ rad p a,
    radii !! Z.to_nat 1 = Some rad ∧ xyz !! 2%nat = Some p ∧
    arclens !! 2%nat = Some a ∧
    distancesToNearestLine (result st) !! 2%nat
      = Some (abs ((rad - p.2 * Libm.cos 0.5) / Libm.sin 0.5 - a))%float ∧
    is_finite (abs ((rad - p.2 * Libm.cos 0.5) / Libm.sin 0.5 - a))%float = true.
Proof.
  intros self xyz arclens radii st.
  destruct (classifyPoints_assigned_distance Libm.cos Libm.sin self xyz arclens
              0.5 radii 2 1 eq_refl ltac:(discriminate))
    as (rad & p & a & Hrad & Hp & Ha & Hd & Hfin & _).
  exists rad, p, a. exact (conj Hrad (conj Hp (conj Ha (conj Hd Hfin)))).
Defined.

(** C1 fails on the code: for the single point of depth 0 and arc length 0,
    the angle 0.5 and the radius 1, [classifyPoints] returns the label 0 and
    the distance 1 / sin 0.5 = 2.0858... (0x1.0afc773ab69dcp+1), where the
    perpendicular distance of
    the point to the line depth · cos 0.5 + arcLength · sin 0.5 = 1 is 1. *)
Lemma classifyPoints_assigned_distance_counterexample :
  let self := {| numAngleBinsToReduce := 2; houghSpaceSliceSize := 1;
                 peakWidth := 1; minPointsPerLine := 1 |} in
  let res := classifyPoints Libm.cos Libm.sin self [(0, 0, 0)]%float [0]%float
               0.5 [1]%float in
  labels res = [0%Z] ∧
  distancesToNearestLine res = [0x1.0afc773ab69dcp+1]%float ∧
  perpendicularDistance (Libm.cos 0.5) (Libm.sin 0.5) 0 0 1 = 1%float ∧
  (0x1.0afc773ab69dcp+1 =? 1)%float = false.
Proof. repeat split; reflexivity. Qed.

(** C2 fails on the code: the elimination step assigns to the whole array
    [distancesToNearestLine], not to the coefficient of the point it resets.
    With minPointsPerLine = 2, the lines of radius 1 and 5 at the angle 0.5
    and three points of depth 0 and arc lengths 2, 2.5 and 10, the loop ends
    with the labels 0, 0, 1, three finite distances and the counts 2 and 1.
    The elimination of line 1 resets the third point, and it also sets the
    distances of the two points of line 0, which survives, to +inf. *)
Theorem classifyPoints_elimination_resets_all_distances :
  let self := {| numAngleBinsToReduce := 2; houghSpaceSliceSize := 1;
                 peakWidth := 1; minPointsPerLine := 2 |} in
  let xyz := [(1, 0, 0); (0, 1, 0); (1, 1, 0)]%float in
  let arclens := [2; 2.5; 10]%float in
  let radii := [1; 5]%float in
  let st := classifyLoop Libm.cos Libm.sin xyz arclens 0.5 radii in
  let res := classifyPoints Libm.cos Libm.sin self xyz arclens 0.5 radii in
  labels (result st) = [0; 0; 1]%Z ∧
  is_finite <$> distancesToNearestLine (result st) = [true; true; true] ∧
  pointsPerLine st = [2; 1]%Z ∧
  labels res = [0; 0; -1]%Z ∧
  distancesToNearestLine res = [infinity; infinity; infinity].
Proof. repeat split; reflexivity. Qed.

(** The elimination step in general: a point keeps its label unless its line
    has fewer than minPointsPerLine points, and as soon as one point is reset
    every distance of the returned result is +inf. *)
Lemma classifyPoints_elimination (cos sin : float → float)
    (self : HoughSpiralCleaner) (xyz : list (float * float * float))
    (arclens : list float) (maxAngle : float) (radii : list float) :
  let st := classifyLoop cos sin xyz arclens maxAngle radii in
  let res := classifyPoints cos sin self xyz arclens maxAngle radii in
  labels res
  = (λ l, if eliminated self (pointsPerLine st) l then (-1)%Z else l)
      <$> labels (result st) ∧
  ((∃ l, l ∈ labels (result st) ∧ eliminated self (pointsPerLine st) l = true) →
   distancesToNearestLine res = replicate (length xyz) infinity).
Proof.
  destruct (classifyPoints_spec cos sin self xyz arclens maxAngle radii)
    as (Hlab & Hyes & _). by split.
Qed.

(** C4: when the new distance of a point is strictly below its old one, the
    count of its old line goes down by one only if the point had a line (its
    old label is not -1), the count of the current line goes up by one, and
    the label and the distance of the point are written together; and at the
    end of the classification loop the count of every line l is the number of
    points labeled l. *)
Theorem classifyPoints_population_counts (cos sin : float → float)
    (xyz : list (float * float * float)) (arclens : list float)
    (maxAngle : float) (radii : list float) :
  (∀ (st : ClassifierState) (lineIdx : Z) (dist : list float) (pointIdx : nat)
     (newDist oldDist : float) (old : Z),
     dist !! pointIdx = Some newDist →
     distancesToNearestLine (result st) !! pointIdx = Some oldDist →
     labels (result st) !! pointIdx = Some old →
     (newDist <? oldDist)%float = true →
     (0 ≤ lineIdx < Z.of_nat (length (pointsPerLine st)))%Z →
     old = (-1)%Z ∨ (0 ≤ old < Z.of_nat (length (pointsPerLine st)))%Z →
     let st' := assignPoint lineIdx dist st pointIdx in
     labels (result st') = <[pointIdx := lineIdx]> (labels (result st)) ∧
     distancesToNearestLine (result st')
       = <[pointIdx := newDist]> (distancesToNearestLine (result st)) ∧
     pointsPerLine st'
       = alter Z.succ (Z.to_nat lineIdx)
           (if decide (old = (-1)%Z) then pointsPerLine st
            else alter Z.pred (Z.to_nat old) (pointsPerLine st))) ∧
  (∀ l : nat,
     l < length radii →
     pointsPerLine (classifyLoop cos sin xyz arclens maxAngle radii) !! l
     = Some (countLabel (Z.of_nat l)
               (labels (result (classifyLoop cos sin xyz arclens maxAngle radii))))).
Proof.
  split.
  - intros st lineIdx dist pointIdx newDist oldDist old Hnew Hold Hlab Hlt Hline Hvalid.
    cbn zeta.
    by rewrite (assignPoint_better lineIdx dist st pointIdx newDist oldDist old).
  - intros l Hl.
    exact (inv_counts _ _ _ _ _ _ _
             (classifyLoop_inv cos sin xyz arclens maxAngle radii) l Hl).
Qed.

Lemma classifyPoints_population_counts_witness :
  let xyz := [(1, 0, 0); (0, 1, 0); (1, 1, 0)]%float in
  let arclens := [2; 2.5; 10]%float in
  let radii := [1; 5]%float in
  let st := classifyLoop Libm.cos Libm.sin xyz arclens 0.5 radii in
  pointsPerLine st !! 0%nat = Some (countLabel 0 (labels (result st))) ∧
  pointsPerLine st !! 1%nat = Some (countLabel 1 (labels (result st))).
Proof.
  intros xyz arclens radii st.
  destruct (classifyPoints_population_counts Libm.cos Libm.sin xyz arclens 0.5
              radii) as [_ Hcount].
  split.
  - apply (Hcount 0%nat). simpl. lia.
  - apply (Hcount 1%nat). simpl. lia.
Defined.

(** C7: with L candidate radii, every label is -1 or an integer of [0, L),
    at the end of the classification loop and in the result that
    [classifyPoints] returns. *)
Theorem classifyPoints_labels_valid (cos sin : float → float)
    (self : HoughSpiralCleaner) (xyz : list (float * float * float))
    (arclens : list float) (maxAngle : float) (radii : list float) :
  Forall (λ l, l = (-1)%Z ∨ (0 ≤ l < Z.of_nat (length radii))%Z)
    (labels (result (classifyLoop cos sin xyz arclens maxAngle radii))) ∧
  Forall (λ l, l = (-1)%Z ∨ (0 ≤ l < Z.of_nat (length radii))%Z)
    (labels (classifyPoints cos sin self xyz arclens maxAngle radii)).
Proof.
  pose proof (classifyLoop_inv cos sin xyz arclens maxAngle radii) as Hinv.
  pose proof (inv_labels_valid _ _ _ _ _ _ _ Hinv) as Hvalid.
  split; [exact Hvalid|].
  destruct (classifyPoints_spec cos sin self xyz arclens maxAngle radii)
    as (-> & _). apply Forall_fmap.
  eapply Forall_impl; [exact Hvalid|]. intros l Hl. simpl.
  destruct (eliminated _ _ l); [by left|exact Hl].
Qed.

(** The classification loop accesses [pointsPerLine] outside its bounds once
    for every point that ends the loop with a line, each time at the index
    -1: the decrement of the count of the old label is not guarded. *)
Lemma classifyLoop_outOfRange (cos sin : float → float)
    (xyz : list (float * float * float)) (arclens : list float)
    (maxAngle : float) (radii : list float) :
  let st := classifyLoop cos sin xyz arclens maxAngle radii in
  outOfRange st
  = replicate (length (filter (λ l, l ≠ (-1)%Z) (labels (result st)))) (-1)%Z.
Proof.
  exact (inv_outOfRange _ _ _ _ _ _ _
           (classifyLoop_inv cos sin xyz arclens maxAngle radii)).
Qed.

(** C10 fails on the code: for one point of depth 0 and arc length 0, the
    angle 0.5 and one line of radius 1, the point is assigned to line 0 while
    its label is -1, and [--pointsPerLine (oldLineIdx)] accesses the array,
    which has the single index 0, at the index -1. *)
Theorem classifyPoints_first_assignment_out_of_range :
  let st := classifyLoop Libm.cos Libm.sin [(0, 0, 0)]%float [0]%float 0.5
              [1]%float in
  length (pointsPerLine st) = 1%nat ∧
  labels (result st) = [0%Z] ∧
  outOfRange st = [(-1)%Z].
Proof. repeat split; reflexivity. Qed.

(** * Part III: further properties *)

(** ** The order of binary64 *)

Module IEEEOrder.

Ltac compare_cases :=
  repeat match goal with
  | H : context [Z.compare ?a ?b] |- _ =>
      destruct (Z.compare_spec a b); simpl in H; try discriminate H
  | |- context [Z.compare ?a ?b] => destruct (Z.compare_spec a b); simpl
  | H : context [Pos.compare ?a ?b] |- _ =>
      destruct (Pos.compare_spec a b); simpl in H; try discriminate H
  | |- context [Pos.compare ?a ?b] => destruct (Pos.compare_spec a b); simpl
  end.

Lemma SFltb_trans (x y z : spec_float) :
  SFltb x y = true → SFltb y z = true → SFltb x z = true.
Proof.
  unfold SFltb, SFcompare.
  destruct x as [sx|sx| |sx mx ex], y as [sy|sy| |sy my ey],
    z as [sz|sz| |sz mz ez]; simpl; try done;
    try destruct sx; try destruct sy; try destruct sz; simpl; try done;
    change (Pos.compare_cont Eq) with Pos.compare;
    intros H1 H2; compare_cases; subst; try done; try lia.
Qed.

Lemma SFleb_ltb_trans (x y z : spec_float) :
  SFleb x y = true → SFltb y z = true → SFltb x z = true.
Proof.
  unfold SFltb, SFleb, SFcompare.
  destruct x as [sx|sx| |sx mx ex], y as [sy|sy| |sy my ey],
    z as [sz|sz| |sz mz ez]; simpl; try done;
    try destruct sx; try destruct sy; try destruct sz; simpl; try done;
    change (Pos.compare_cont Eq) with Pos.compare;
    intros H1 H2; compare_cases; subst; try done; try lia.
Qed.

Lemma ltb_irrefl (x : float) : (x <? x)%float = false.
Proof.
  rewrite FloatAxioms.ltb_spec. unfold SFltb, SFcompare.
  destruct (Prim2SF x) as [sx|sx| |sx mx ex]; simpl; try done;
    try destruct sx; simpl; try done;
    by rewrite Z.compare_refl, Pos.compare_cont_refl.
Qed.

(** What is not below [b] is not below anything that is below [b]. *)
Lemma not_ltb_below (a b c : float) :
  (c <? b)%float = true → (a <? b)%float = false → (a <? c)%float = false.
Proof.
  rewrite !FloatAxioms.ltb_spec. intros Hcb Hab.
  destruct (SFltb (Prim2SF a) (Prim2SF c)) eqn:Hac; [|done].
  by rewrite (SFltb_trans _ _ _ Hac Hcb) in Hab.
Qed.

Lemma not_leb_below (a b c : float) :
  (c <? b)%float = true → (a <? b)%float = false → (a <=? c)%float = false.
Proof.
  rewrite !FloatAxioms.ltb_spec, FloatAxioms.leb_spec. intros Hcb Hab.
  destruct (SFleb (Prim2SF a) (Prim2SF c)) eqn:Hac; [|done].
  by rewrite (SFleb_ltb_trans _ _ _ Hac Hcb) in Hab.
Qed.

End IEEEOrder.

(** ** The classification of one point *)

Lemma bestLineFrom_snoc (lineIdx : nat) (best : Z * float) (dists : list float)
    (d : float) :
  bestLineFrom lineIdx best (dists ++ [d])
  = betterLine (bestLineFrom lineIdx best dists)
      (Z.of_nat (lineIdx + length dists)) d.
Proof.
  revert lineIdx best. induction dists as [|d' dists IH]; intros lineIdx best.
  - simpl. by rewrite Nat.add_0_r.
  - simpl. rewrite IH. do 2 f_equal. lia.
Qed.

Lemma updateCount_result (f : Z → Z) (idx : Z) (st : ClassifierState) :
  result (updateCount f idx st) = result st.
Proof. unfold updateCount. by case_decide. Qed.

(** The loop body changes the label and the distance of its own point only,
    and decides from the distance of that point only. *)
Lemma assignPoint_pointState (lineIdx : Z) (dist : list float)
    (st : ClassifierState) (k i : nat) :
  k < length (labels (result st)) →
  k < length (distancesToNearestLine (result st)) →
  length (labels (result (assignPoint lineIdx dist st k)))
    = length (labels (result st)) ∧
  length (distancesToNearestLine (result (assignPoint lineIdx dist st k)))
    = length (distancesToNearestLine (result st)) ∧
  pointState (result (assignPoint lineIdx dist st k)) i
  = if decide (k = i)
    then betterLine (pointState (result st) i) lineIdx (default nan (dist !! i))
    else pointState (result st) i.
Proof.
  intros Hkl Hkd. unfold assignPoint, betterLine, pointState.
  destruct (default nan (dist !! k)
            <? default nan (distancesToNearestLine (result st) !! k))%float
    eqn:Hlt.
  - simpl. rewrite !updateCount_result, !length_insert.
    split; [done|]. split; [done|].
    destruct (decide (k = i)) as [<-|Hne].
    + simpl. by rewrite Hlt, !list_lookup_insert_eq.
    + by rewrite !list_lookup_insert_ne.
  - split; [done|]. split; [done|].
    destruct (decide (k = i)) as [<-|Hne]; [|done]. simpl. by rewrite Hlt.
Qed.

Lemma assignPoints_pointState (lineIdx : Z) (dist : list float)
    (st : ClassifierState) (k i : nat) :
  k ≤ length (labels (result st)) →
  k ≤ length (distancesToNearestLine (result st)) →
  let st' := foldl (assignPoint lineIdx dist) st (seq 0 k) in
  length (labels (result st')) = length (labels (result st)) ∧
  length (distancesToNearestLine (result st'))
    = length (distancesToNearestLine (result st)) ∧
  pointState (result st') i
  = if decide (i < k)
    then betterLine (pointState (result st) i) lineIdx (default nan (dist !! i))
    else pointState (result st) i.
Proof.
  induction k as [|k IH]; intros Hkl Hkd; cbn zeta.
  - done.
  - rewrite seq_S, foldl_app. cbn [foldl Nat.add].
    destruct IH as (Hl & Hd & Hp); [lia..|]. cbn zeta in Hl, Hd, Hp.
    set (st' := foldl (assignPoint lineIdx dist) st (seq 0 k)) in *.
    destruct (assignPoint_pointState lineIdx dist st' k i) as (Hl' & Hd' & Hp');
      [lia..|].
    rewrite Hl', Hd', Hp', Hl, Hd, Hp.
    split; [done|]. split; [done|].
    destruct (decide (k = i)) as [<-|Hne].
    + by rewrite decide_False, decide_True by lia.
    + destruct (decide (i < k)).
      * by rewrite decide_True by lia.
      * by rewrite decide_False by lia.
Qed.

Section PointwiseFacts.

Variable cos sin : float → float.
Variable xyz : list (float * float * float).
Variable arclens : list float.
Variable maxAngle : float.
Variable radii : list float.

(** After the lines below [m], a point has the label and the distance that
    its own distances to these lines give. *)
Lemma classifyLines_pointState (m i : nat) :
  m ≤ length radii → i < length xyz →
  let st :=
    foldl (processLine cos sin xyz arclens maxAngle radii)
      {| result := newResult (length xyz);
         pointsPerLine := replicate (length radii) 0%Z;
         outOfRange := [] |}
      (seq 0 m) in
  length (labels (result st)) = length xyz ∧
  length (distancesToNearestLine (result st)) = length xyz ∧
  pointState (result st) i
  = bestLine
      (take m ((λ rad,
                  default nan
                    (lineDistances cos sin xyz arclens maxAngle rad !! i))
               <$> radii)).
Proof.
  intros Hm Hi. induction m as [|m IH]; cbn zeta.
  - simpl. rewrite !length_replicate. split; [done|]. split; [done|].
    unfold pointState. simpl. by rewrite !lookup_replicate_2.
  - rewrite seq_S, foldl_app. cbn [foldl Nat.add].
    destruct IH as (Hl & Hd & Hp); [lia|]. cbn zeta in Hl, Hd, Hp.
    set (st := foldl _ _ (seq 0 m)) in *.
    destruct (lookup_lt_is_Some_2 radii m) as [rad Hrad]; [lia|].
    unfold processLine. rewrite Hrad. simpl.
    destruct (assignPoints_pointState (Z.of_nat m)
                (lineDistances cos sin xyz arclens maxAngle rad) st
                (length xyz) i) as (Hl' & Hd' & Hp'); [lia..|].
    cbn zeta in Hl', Hd', Hp'. rewrite Hl', Hd', Hp', Hl, Hd, Hp.
    split; [done|]. split; [done|].
    rewrite decide_True by done.
    erewrite take_S_r; last by rewrite list_lookup_fmap, Hrad.
    unfold bestLine. rewrite bestLineFrom_snoc, length_take, length_fmap.
    do 2 f_equal. lia.
Qed.

(** The state of a point at the end of the classification loop. *)
Lemma classifyLoop_pointState (i : nat) :
  i < length xyz →
  pointState (result (classifyLoop cos sin xyz arclens maxAngle radii)) i
  = bestLine
      ((λ rad,
          default nan (lineDistances cos sin xyz arclens maxAngle rad !! i))
       <$> radii).
Proof.
  intros Hi.
  destruct (classifyLines_pointState (length radii) i) as (_ & _ & Hp);
    [done..|].
  unfold classifyLoop. cbn zeta in *. rewrite Hp. f_equal.
  by rewrite take_ge by (by rewrite length_fmap).
Qed.

End PointwiseFacts.

Lemma classifyLoop_point_bestLine (cos sin : float → float)
    (xyz : list (float * float * float)) (arclens : list float)
    (maxAngle : float) (radii : list float)
    (i : nat) (p : float * float * float) (a : float) :
  xyz !! i = Some p →
  arclens !! i = Some a →
  let st := classifyLoop cos sin xyz arclens maxAngle radii in
  let best :=
    bestLine ((λ rad, lineDistanceOf cos sin maxAngle rad p a) <$> radii) in
  labels (result st) !! i = Some best.1 ∧
  distancesToNearestLine (result st) !! i = Some best.2.
Proof.
  intros Hp Ha. cbn zeta.
  pose proof (lookup_lt_Some _ _ _ Hp) as Hi.
  pose proof (classifyLoop_inv cos sin xyz arclens maxAngle radii) as Hinv.
  pose proof (classifyLoop_pointState cos sin xyz arclens maxAngle radii i Hi)
    as Hstate.
  assert ((λ rad, default nan
                    (lineDistances cos sin xyz arclens maxAngle rad !! i))
            <$> radii
          = (λ rad, lineDistanceOf cos sin maxAngle rad p a) <$> radii) as Heq.
  { apply list_fmap_ext. intros j rad _.
    assert (lineDistances cos sin xyz arclens maxAngle rad !! i
            = Some (lineDistanceOf cos sin maxAngle rad p a)) as ->; [|done].
    apply lineDistances_lookup. by exists p, a. }
  rewrite Heq in Hstate. rewrite <- Hstate. unfold pointState. simpl.
  destruct (lookup_lt_is_Some_2
              (labels (result (classifyLoop cos sin xyz arclens maxAngle radii))) i)
    as [l ->]; [by rewrite (inv_labels_length _ _ _ _ _ _ _ Hinv)|].
  destruct (lookup_lt_is_Some_2
              (distancesToNearestLine
                 (result (classifyLoop cos sin xyz arclens maxAngle radii))) i)
    as [d ->]; [by rewrite (inv_distances_length _ _ _ _ _ _ _ Hinv)|].
  done.
Qed.

(** A point with an arc length ends the classification loop with the label
    and the distance that [bestLine] gives for its own distances to the
    lines: its classification depends on its depth, its arc length, the angle
    and the radii, and on no other point. *)
Theorem classifyLoop_point_alone (cos sin : float → float)
    (xyz : list (float * float * float)) (arclens : list float)
    (maxAngle : float) (radii : list float)
    (i : nat) (p : float * float * float) (a : float) :
  xyz !! i = Some p →
  arclens !! i = Some a →
  let st := classifyLoop cos sin xyz arclens maxAngle radii in
  let best :=
    bestLine ((λ rad, lineDistanceOf cos sin maxAngle rad p a) <$> radii) in
  labels (result st) !! i = Some best.1 ∧
  distancesToNearestLine (result st) !! i = Some best.2.
Proof. apply classifyLoop_point_bestLine. Qed.

Lemma classifyLoop_point_alone_witness :
  let xyz := [(1, 0, 0); (0, 1, 0); (1, 1, 0)]%float in
  let arclens := [2; 2.5; 10]%float in
  let radii := [1; 5]%float in
  let st := classifyLoop Libm.cos Libm.sin xyz arclens 0.5 radii in
  let best :=
    bestLine ((λ rad, lineDistanceOf Libm.cos Libm.sin 0.5 rad (1, 1, 0)%float
                        10%float) <$> radii) in
  labels (result st) !! 2%nat = Some best.1 ∧
  distancesToNearestLine (result st) !! 2%nat = Some best.2.
Proof.
  exact (classifyLoop_point_alone Libm.cos Libm.sin
           [(1, 0, 0); (0, 1, 0); (1, 1, 0)]%float [2; 2.5; 10]%float 0.5
           [1; 5]%float 2 (1, 1, 0)%float 10%float eq_refl eq_refl).
Defined.

(** What [bestLine] returns: the sentinel and +inf, or a line and the
    distance to it; no distance of the list is below the returned one, and no
    distance of an earlier line is below or equal to it. *)
Lemma bestLine_nearest (dists : list float) :
  ((bestLine dists).1 = (-1)%Z ∧ (bestLine dists).2 = infinity ∨
   (0 ≤ (bestLine dists).1)%Z ∧
   dists !! Z.to_nat (bestLine dists).1 = Some (bestLine dists).2) ∧
  ∀ (j : nat) (dj : float),
    dists !! j = Some dj →
    (dj <? (bestLine dists).2)%float = false ∧
    ((bestLine dists).1 ≠ (-1)%Z → (Z.of_nat j < (bestLine dists).1)%Z →
     (dj <=? (bestLine dists).2)%float = false).
Proof.
  induction dists as [|x dists IH] using rev_ind.
  - split; [by left|]. intros j dj Hj. done.
  - unfold bestLine in *. rewrite bestLineFrom_snoc. simpl.
    destruct (bestLineFrom 0 ((-1)%Z, infinity) dists) as [l d].
    simpl in IH. destruct IH as [Hbest Hall]. unfold betterLine. simpl.
    destruct (x <? d)%float eqn:Hlt; simpl.
    + split.
      * right. split; [lia|].
        by rewrite Nat2Z.id, lookup_app_r, Nat.sub_diag by lia.
      * intros j dj Hj. apply lookup_app_Some in Hj as [Hj|[Hlen Hj]].
        -- destruct (Hall j dj Hj) as [Hnot _]. split.
           ++ by eapply IEEEOrder.not_ltb_below.
           ++ intros _ _. by eapply IEEEOrder.not_leb_below.
        -- apply list_lookup_singleton_Some in Hj as [Hj <-]. split.
           ++ apply IEEEOrder.ltb_irrefl.
           ++ lia.
    + assert (l = (-1)%Z ∨ (0 ≤ l)%Z ∧ Z.to_nat l < length dists) as Hl.
      { destruct Hbest as [[-> _]|[Hpos Hlook]]; [by left|right].
        split; [done|]. by eapply lookup_lt_Some. }
      split.
      * destruct Hbest as [?|[Hpos Hlook]]; [by left|right].
        split; [done|]. by rewrite lookup_app_l by (by eapply lookup_lt_Some).
      * intros j dj Hj. apply lookup_app_Some in Hj as [Hj|[Hlen Hj]].
        -- by apply Hall.
        -- apply list_lookup_singleton_Some in Hj as [Hj <-]. split; [done|].
           intros Hne Hjl. destruct Hl as [?|[? ?]]; [done|lia].
Qed.

(** Nearest line, first among equals: at the end of the classification loop
    no line is at a distance below the distance a point has (for an
    unassigned point, whose distance is +inf, no line is at a distance below
    +inf), and no line before the line of the point is at a distance below or
    equal to it. *)
Theorem classifyLoop_nearest_line (cos sin : float → float)
    (xyz : list (float * float * float)) (arclens : list float)
    (maxAngle : float) (radii : list float)
    (i : nat) (p : float * float * float) (a : float) (l : Z) (d : float)
    (j : nat) (rad : float) :
  let st := classifyLoop cos sin xyz arclens maxAngle radii in
  xyz !! i = Some p →
  arclens !! i = Some a →
  labels (result st) !! i = Some l →
  distancesToNearestLine (result st) !! i = Some d →
  radii !! j = Some rad →
  (lineDistanceOf cos sin maxAngle rad p a <? d)%float = false ∧
  (l ≠ (-1)%Z → (Z.of_nat j < l)%Z →
   (lineDistanceOf cos sin maxAngle rad p a <=? d)%float = false).
Proof.
  intros st Hp Ha Hl Hd Hrad.
  destruct (classifyLoop_point_bestLine cos sin xyz arclens maxAngle radii i p
              a Hp Ha) as [Hl' Hd'].
  cbn zeta in Hl', Hd'. fold st in Hl', Hd'.
  rewrite Hl in Hl'. rewrite Hd in Hd'.
  injection Hl' as ->. injection Hd' as ->.
  apply (bestLine_nearest
           ((λ rad, lineDistanceOf cos sin maxAngle rad p a) <$> radii)).
  by rewrite list_lookup_fmap, Hrad.
Qed.

Lemma classifyLoop_nearest_line_witness :
  let xyz := [(1, 0, 0); (0, 1, 0); (1, 1, 0)]%float in
  let arclens := [2; 2.5; 10]%float in
  let radii := [1; 5]%float in
  (lineDistanceOf Libm.cos Libm.sin 0.5 1 (1, 1, 0)%float 10
   <? 0x1.b772a12c88a60p-2)%float = false ∧
  ((1 ≠ -1)%Z → (Z.of_nat 0 < 1)%Z →
   (lineDistanceOf Libm.cos Libm.sin 0.5 1 (1, 1, 0)%float 10
    <=? 0x1.b772a12c88a60p-2)%float = false).
Proof.
  exact (classifyLoop_nearest_line Libm.cos Libm.sin
           [(1, 0, 0); (0, 1, 0); (1, 1, 0)]%float [2; 2.5; 10]%float 0.5
           [1; 5]%float 2 (1, 1, 0)%float 10%float 1%Z 0x1.b772a12c88a60p-2%float
           0 1%float eq_refl eq_refl eq_refl eq_refl eq_refl).
Defined.

(** ** The result of [classifyPoints], continued *)

Lemma countLabel_elem_of (l : Z) (ls : list Z) :
  l ∈ ls → (1 ≤ countLabel l ls)%Z.
Proof.
  induction 1 as [l ls|l x ls _ IH]; rewrite countLabel_cons.
  - rewrite decide_True by done. unfold countLabel. lia.
  - destruct (decide (x = l)); lia.
Qed.

Lemma countLabel_fmap_keep (f : Z → Z) (l : Z) (ls : list Z) :
  (∀ x, f x = l ↔ x = l) →
  countLabel l (f <$> ls) = countLabel l ls.
Proof.
  intros Hf. induction ls as [|x ls IH]; [done|].
  rewrite fmap_cons, !countLabel_cons, IH.
  destruct (decide (x = l)) as [Hx|Hx].
  - by rewrite decide_True by (by apply Hf).
  - by rewrite decide_False by (by rewrite Hf).
Qed.

Section ReturnedResultFacts.

Variable cos sin : float → float.
Variable self : HoughSpiralCleaner.
Variable xyz : list (float * float * float).
Variable arclens : list float.
Variable maxAngle : float.
Variable radii : list float.

Let st := classifyLoop cos sin xyz arclens maxAngle radii.
Let res := classifyPoints cos sin self xyz arclens maxAngle radii.

Lemma reset_decide :
  let reset :=
    ∃ l, l ∈ labels (result st) ∧ eliminated self (pointsPerLine st) l = true in
  reset ∨ ¬ reset.
Proof.
  cbn zeta.
  destruct (decide (Exists (λ l, eliminated self (pointsPerLine st) l = true)
                      (labels (result st)))) as [He|He];
    rewrite Exists_exists in He; [by left|by right].
Qed.

Lemma classifyPoints_result_lengths :
  length (labels res) = length xyz ∧
  length (distancesToNearestLine res) = length xyz.
Proof.
  pose proof (classifyLoop_inv cos sin xyz arclens maxAngle radii) as Hinv.
  destruct (classifyPoints_spec cos sin self xyz arclens maxAngle radii)
    as (Hlab & Hyes & Hno).
  fold st res in Hlab, Hyes, Hno, Hinv. split.
  - rewrite Hlab, length_fmap. apply (inv_labels_length _ _ _ _ _ _ _ Hinv).
  - destruct reset_decide as [Hr|Hr].
    + by rewrite (Hyes Hr), length_replicate.
    + rewrite (Hno Hr). apply (inv_distances_length _ _ _ _ _ _ _ Hinv).
Qed.

(** In the result of [classifyPoints] an unassigned point has the distance
    +inf. *)
Lemma classifyPoints_unassigned (i : nat) :
  labels res !! i = Some (-1)%Z →
  distancesToNearestLine res !! i = Some infinity.
Proof.
  intros Hi.
  pose proof (classifyLoop_inv cos sin xyz arclens maxAngle radii) as Hinv.
  destruct (classifyPoints_spec cos sin self xyz arclens maxAngle radii)
    as (Hlab & Hyes & Hno).
  fold st res in Hlab, Hyes, Hno, Hinv.
  destruct reset_decide as [Hr|Hr].
  - rewrite (Hyes Hr). apply lookup_replicate_2.
    apply lookup_lt_Some in Hi. by rewrite (proj1 classifyPoints_result_lengths) in Hi.
  - rewrite (Hno Hr) in Hi |- *.
    by apply (inv_unassigned _ _ _ _ _ _ _ Hinv).
Qed.

(** With minPointsPerLine at most 1 the elimination changes nothing: a line
    that has a point has a count of at least 1, and [classifyPoints] returns
    the state of the end of the classification loop. *)
Lemma classifyPoints_small_minimum :
  (minPointsPerLine self ≤ 1)%Z → res = result st.
Proof.
  intros Hmin.
  pose proof (classifyLoop_inv cos sin xyz arclens maxAngle radii) as Hinv.
  destruct (classifyPoints_spec cos sin self xyz arclens maxAngle radii)
    as (_ & _ & Hno).
  fold st res in Hno, Hinv. apply Hno. intros (l & Hl & He).
  unfold eliminated, eliminatedBelow in He.
  apply bool_decide_eq_true in He as [Hrange Hsmall].
  rewrite (inv_counts_length _ _ _ _ _ _ _ Hinv) in Hrange.
  rewrite (inv_counts _ _ _ _ _ _ _ Hinv (Z.to_nat l)) in Hsmall by lia.
  simpl in Hsmall. rewrite Z2Nat.id in Hsmall by lia.
  pose proof (countLabel_elem_of l _ Hl). lia.
Qed.

(** A line that labels a point of the result of [classifyPoints] has kept
    all its points: their number is the count of the line at the end of the
    classification loop, and it is at least minPointsPerLine. *)
Lemma classifyPoints_surviving (l : Z) :
  l ∈ labels res → l ≠ (-1)%Z →
  countLabel l (labels res) = countLabel l (labels (result st)) ∧
  pointsPerLine st !! Z.to_nat l = Some (countLabel l (labels res)) ∧
  (minPointsPerLine self ≤ countLabel l (labels res))%Z.
Proof.
  intros Hl Hne.
  pose proof (classifyLoop_inv cos sin xyz arclens maxAngle radii) as Hinv.
  destruct (classifyPoints_spec cos sin self xyz arclens maxAngle radii)
    as (Hlab & _ & _).
  fold st res in Hlab, Hinv.
  rewrite Hlab in Hl. apply list_elem_of_fmap in Hl as (x & Hx & Hin).
  destruct (eliminated self (pointsPerLine st) x) eqn:He; [done|]. subst x.
  pose proof (proj1 (Forall_forall _ _)
                (inv_labels_valid _ _ _ _ _ _ _ Hinv) l Hin) as [?|Hrange];
    [done|].
  pose proof (inv_counts _ _ _ _ _ _ _ Hinv (Z.to_nat l) ltac:(lia)) as Hcount.
  rewrite Z2Nat.id in Hcount by lia.
  assert (countLabel l (labels res) = countLabel l (labels (result st))) as Hsame.
  { rewrite Hlab. apply countLabel_fmap_keep. intros x. split.
    - destruct (eliminated self (pointsPerLine st) x); [lia|done].
    - intros ->. by rewrite He. }
  rewrite Hsame. split; [done|]. split; [done|].
  unfold eliminated, eliminatedBelow in He.
  apply bool_decide_eq_false in He.
  rewrite (inv_counts_length _ _ _ _ _ _ _ Hinv), Hcount in He. simpl in He.
  lia.
Qed.

(** A distance in the result of [classifyPoints] is +inf or a finite double;
    it is never NaN. *)
Lemma classifyPoints_distance_class (i : nat) (d : float) :
  distancesToNearestLine res !! i = Some d →
  d = infinity ∨ is_finite d = true.
Proof.
  intros Hd.
  pose proof (classifyLoop_inv cos sin xyz arclens maxAngle radii) as Hinv.
  destruct (classifyPoints_spec cos sin self xyz arclens maxAngle radii)
    as (_ & Hyes & Hno).
  fold st res in Hyes, Hno, Hinv.
  destruct reset_decide as [Hr|Hr].
  - rewrite (Hyes Hr) in Hd. apply lookup_replicate in Hd as [-> _]. by left.
  - rewrite (Hno Hr) in Hd.
    destruct (lookup_lt_is_Some_2 (labels (result st)) i) as [l Hl].
    { apply lookup_lt_Some in Hd.
      by rewrite (inv_labels_length _ _ _ _ _ _ _ Hinv),
        <- (inv_distances_length _ _ _ _ _ _ _ Hinv). }
    destruct (decide (l = (-1)%Z)) as [->|Hne].
    + left. rewrite (inv_unassigned _ _ _ _ _ _ _ Hinv i Hl) in Hd.
      by injection Hd.
    + right.
      destruct (inv_assigned _ _ _ _ _ _ _ Hinv i l Hl Hne)
        as (rad & p & a & _ & _ & _ & Hd' & Hfin).
      rewrite Hd in Hd'. by injection Hd' as ->.
Qed.

End ReturnedResultFacts.

(** The result of [classifyPoints] has one label and one distance per
    point. *)
Theorem classifyPoints_lengths (cos sin : float → float)
    (self : HoughSpiralCleaner) (xyz : list (float * float * float))
    (arclens : list float) (maxAngle : float) (radii : list float) :
  length (labels (classifyPoints cos sin self xyz arclens maxAngle radii))
    = length xyz ∧
  length (distancesToNearestLine
            (classifyPoints cos sin self xyz arclens maxAngle radii))
    = length xyz.
Proof. apply classifyPoints_result_lengths. Qed.

(** Without a candidate line every point is unassigned at an infinite
    distance, and an empty point cloud gives an empty result. *)
Theorem classifyPoints_empty (cos sin : float → float)
    (self : HoughSpiralCleaner) (xyz : list (float * float * float))
    (arclens : list float) (maxAngle : float) (radii : list float) :
  classifyPoints cos sin self xyz arclens maxAngle []
  = {| labels := replicate (length xyz) (-1)%Z;
       distancesToNearestLine := replicate (length xyz) infinity |} ∧
  classifyPoints cos sin self [] arclens maxAngle radii
  = {| labels := []; distancesToNearestLine := [] |}.
Proof.
  split; [done|].
  destruct (classifyPoints_result_lengths cos sin self [] arclens maxAngle
              radii) as [Hl Hd].
  apply result_eq; simpl; by apply nil_length_inv.
Qed.

Lemma classifyPoints_unassigned_witness :
  let self := {| numAngleBinsToReduce := 2; houghSpaceSliceSize := 1;
                 peakWidth := 1; minPointsPerLine := 2 |} in
  distancesToNearestLine
    (classifyPoints Libm.cos Libm.sin self
       [(1, 0, 0); (0, 1, 0); (1, 1, 0)]%float [2; 2.5; 10]%float 0.5
       [1; 5]%float) !! 2%nat = Some infinity.
Proof.
  intros self.
  exact (classifyPoints_unassigned Libm.cos Libm.sin self
           [(1, 0, 0); (0, 1, 0); (1, 1, 0)]%float [2; 2.5; 10]%float 0.5
           [1; 5]%float 2 eq_refl).
Defined.

Lemma classifyPoints_small_minimum_witness :
  let self := {| numAngleBinsToReduce := 2; houghSpaceSliceSize := 1;
                 peakWidth := 1; minPointsPerLine := 1 |} in
  classifyPoints Libm.cos Libm.sin self
    [(1, 0, 0); (0, 1, 0); (1, 1, 0)]%float [2; 2.5; 10]%float 0.5 [1; 5]%float
  = result (classifyLoop Libm.cos Libm.sin
              [(1, 0, 0); (0, 1, 0); (1, 1, 0)]%float [2; 2.5; 10]%float 0.5
              [1; 5]%float).
Proof.
  intros self.
  apply (classifyPoints_small_minimum Libm.cos Libm.sin self). simpl. lia.
Defined.

Lemma classifyPoints_surviving_witness :
  let self := {| numAngleBinsToReduce := 2; houghSpaceSliceSize := 1;
                 peakWidth := 1; minPointsPerLine := 2 |} in
  let xyz := [(1, 0, 0); (0, 1, 0); (1, 1, 0)]%float in
  let res := classifyPoints Libm.cos Libm.sin self xyz [2; 2.5; 10]%float 0.5
               [1; 5]%float in
  (2 ≤ countLabel 0 (labels res))%Z.
Proof.
  intros self xyz res.
  refine (proj2 (proj2 (classifyPoints_surviving Libm.cos Libm.sin self xyz
                          [2; 2.5; 10]%float 0.5 [1; 5]%float 0%Z _ _))).
  - vm_compute. left.
  - discriminate.
Defined.

Lemma classifyPoints_distance_class_witness :
  let self := {| numAngleBinsToReduce := 2; houghSpaceSliceSize := 1;
                 peakWidth := 1; minPointsPerLine := 1 |} in
  0x1.b772a12c88a60p-2%float = infinity ∨
  is_finite 0x1.b772a12c88a60p-2%float = true.
Proof.
  intros self.
  exact (classifyPoints_distance_class Libm.cos Libm.sin self
           [(1, 0, 0); (0, 1, 0); (1, 1, 0)]%float [2; 2.5; 10]%float 0.5
           [1; 5]%float 2 0x1.b772a12c88a60p-2%float eq_refl).
Defined.

(** ** Angle estimator, continued *)

Lemma sumZ_Permutation (l1 l2 : list Z) : l1 ≡ₚ l2 → sumZ l1 = sumZ l2.
Proof.
  unfold sumZ. induction 1 as [|x l1 l2 _ IH|x y l|l1 l2 l3 _ IH1 _ IH2];
    simpl; lia.
Qed.

Lemma sumZ_app (l1 l2 : list Z) : sumZ (l1 ++ l2) = (sumZ l1 + sumZ l2)%Z.
Proof. unfold sumZ. induction l1 as [|x l1 IH]; simpl; lia. Qed.

Lemma sumZ_replicate (n : nat) (x : Z) :
  sumZ (replicate n x) = (Z.of_nat n * x)%Z.
Proof. unfold sumZ. induction n as [|n IH]; simpl; lia. Qed.

(** Twice the sum 0 + 1 + ... + (n - 1). *)
Lemma sumZ_seqZ (n : nat) :
  (2 * sumZ (seqZ 0 (Z.of_nat n)) = Z.of_nat n * (Z.of_nat n - 1))%Z.
Proof.
  induction n as [|n IH]; [done|].
  rewrite Nat2Z.inj_succ, <- Z.add_1_r, seqZ_app, sumZ_app by lia.
  replace (sumZ (seqZ (0 + Z.of_nat n) 1)) with (Z.of_nat n); [lia|].
  rewrite seqZ_cons, seqZ_nil by lia. unfold sumZ. simpl. lia.
Qed.

Lemma sumZ_fst_pairs (l r : list Z) :
  sumZ (fst <$> (i ← l; (λ j, (i, j)) <$> r))
  = (sumZ l * Z.of_nat (length r))%Z.
Proof.
  induction l as [|i l IH]; [done|].
  rewrite bind_cons, fmap_app, sumZ_app, IH.
  assert (fst <$> ((λ j : Z, (i, j)) <$> r) = replicate (length r) i) as ->.
  { clear. induction r as [|j r IH]; [done|]. simpl. by rewrite <- IH. }
  rewrite sumZ_replicate. unfold sumZ. simpl. lia.
Qed.

Lemma sumZ_fst_allBins (numBins : Z) :
  (0 ≤ numBins)%Z →
  (2 * sumZ (fst <$> allBins numBins) = numBins * numBins * (numBins - 1))%Z.
Proof.
  intros HB. unfold allBins. rewrite sumZ_fst_pairs, length_seqZ.
  pose proof (sumZ_seqZ (Z.to_nat numBins)) as Hsum.
  rewrite Z2Nat.id in * by done. nia.
Qed.

(** With numAngleBinsToReduce = 1, [findMaxAngleBin] returns the angle
    index of a bin whose accumulator value is maximal in the Hough space. *)
Theorem findMaxAngleBin_single
    (std_sort : list coefArrayType → (coefArrayType → coefArrayType → bool)
                → list coefArrayType)
    (self : HoughSpiralCleaner) (houghSpace : HoughSpace) :
  sortsLikeStdSort std_sort →
  (1 ≤ getNumBins houghSpace)%Z →
  numAngleBinsToReduce self = 1%Z →
  ∃ j,
    (0 ≤ findMaxAngleBin std_sort self houghSpace < getNumBins houghSpace)%Z ∧
    (0 ≤ j < getNumBins houghSpace)%Z ∧
    ∀ i' j',
      (0 ≤ i' < getNumBins houghSpace)%Z →
      (0 ≤ j' < getNumBins houghSpace)%Z →
      (getValueAtBin houghSpace i' j'
       ≤ getValueAtBin houghSpace (findMaxAngleBin std_sort self houghSpace) j)%Z.
Proof.
  intros Hsort HB HK.
  pose proof (length_topBins std_sort Hsort self houghSpace ltac:(lia)
                ltac:(nia)) as Hlen.
  pose proof (topBins_in_range std_sort Hsort self houghSpace) as Hrange.
  pose proof (sortedBins_sorted std_sort Hsort houghSpace) as Hsorted.
  pose proof (sortedBins_Permutation std_sort Hsort houghSpace) as Hperm.
  destruct (topBins_suffix std_sort self houghSpace) as [rest Hrest].
  unfold findMaxAngleBin, coefQuot. rewrite foldl_coefAdd, HK. simpl.
  rewrite HK in Hlen.
  destruct (topBins std_sort self houghSpace) as [|[i j] [|? ?]]; try done.
  rewrite Forall_singleton in Hrange. simpl in Hrange.
  unfold sumZ. simpl. rewrite Z.add_0_r, Z.quot_1_r.
  exists j. split; [lia|]. split; [lia|].
  intros i' j' Hi' Hj'.
  assert ((i', j') ∈ sortedBins std_sort houghSpace) as Hin.
  { rewrite Hperm. by apply elem_of_allBins. }
  rewrite Hrest in Hin, Hsorted.
  apply elem_of_app in Hin as [Hin|Hin%list_elem_of_singleton].
  - apply (StronglySorted_app_1_elem_of _ _ _ (i', j') (i, j) Hsorted Hin).
    by apply list_elem_of_singleton.
  - by injection Hin as -> ->.
Qed.

Lemma findMaxAngleBin_single_witness :
  let self := {| numAngleBinsToReduce := 1; houghSpaceSliceSize := 1;
                 peakWidth := 1; minPointsPerLine := 2 |} in
  let houghSpace :=
    {| getNumBins := 3; getValueAtBin := λ i j, (i * (4 - i) + j)%Z |} in
  ∃ j,
    (0 ≤ findMaxAngleBin mergeSort self houghSpace < 3)%Z ∧
    (0 ≤ j < 3)%Z ∧
    ∀ i' j', (0 ≤ i' < 3)%Z → (0 ≤ j' < 3)%Z →
      (getValueAtBin houghSpace i' j'
       ≤ getValueAtBin houghSpace (findMaxAngleBin mergeSort self houghSpace) j)%Z.
Proof.
  intros self houghSpace.
  apply (findMaxAngleBin_single mergeSort self houghSpace
           mergeSort_sortsLikeStdSort); [simpl; lia|reflexivity].
Defined.

(** With numAngleBinsToReduce = B², [findMaxAngleBin] averages over the
    whole Hough space and returns the middle bin floor ((B - 1) / 2),
    whatever the accumulator holds. *)
Theorem findMaxAngleBin_whole_space
    (std_sort : list coefArrayType → (coefArrayType → coefArrayType → bool)
                → list coefArrayType)
    (self : HoughSpiralCleaner) (houghSpace : HoughSpace) :
  sortsLikeStdSort std_sort →
  (1 ≤ getNumBins houghSpace)%Z →
  numAngleBinsToReduce self = (getNumBins houghSpace * getNumBins houghSpace)%Z →
  findMaxAngleBin std_sort self houghSpace = ((getNumBins houghSpace - 1) `div` 2)%Z.
Proof.
  intros Hsort HB HK.
  pose proof (length_sortedBins std_sort Hsort houghSpace) as Hlen.
  pose proof (sortedBins_Permutation std_sort Hsort houghSpace) as Hperm.
  pose proof (sumZ_fst_allBins (getNumBins houghSpace) ltac:(lia)) as Hsum.
  unfold findMaxAngleBin, coefQuot, topBins.
  rewrite foldl_coefAdd, HK, Hlen, Z2Nat.inj_mul, Nat.sub_diag by lia.
  simpl. rewrite (sumZ_Permutation _ (fst <$> allBins (getNumBins houghSpace)))
    by (by rewrite Hperm).
  set (B := getNumBins houghSpace) in *.
  set (S := sumZ (fst <$> allBins B)) in *.
  rewrite Z.quot_div_nonneg by nia.
  pose proof (Z.div_mod (B - 1) 2 ltac:(lia)) as Hdm.
  pose proof (Z.mod_pos_bound (B - 1) 2 ltac:(lia)) as Hmod.
  symmetry.
  apply (Z.div_unique S (B * B) ((B - 1) `div` 2)
           (S - B * B * ((B - 1) `div` 2))); nia.
Qed.

Lemma findMaxAngleBin_whole_space_witness :
  let self := {| numAngleBinsToReduce := 16; houghSpaceSliceSize := 1;
                 peakWidth := 1; minPointsPerLine := 2 |} in
  let houghSpace :=
    {| getNumBins := 4; getValueAtBin := λ i j, (i * (4 - i) + j)%Z |} in
  findMaxAngleBin mergeSort self houghSpace = ((4 - 1) `div` 2)%Z.
Proof.
  intros self houghSpace.
  apply (findMaxAngleBin_whole_space mergeSort self houghSpace
           mergeSort_sortsLikeStdSort); [simpl; lia|reflexivity].
Defined.

Lemma sumZ_nonneg (l : list Z) : Forall (λ v, 0 ≤ v)%Z l → (0 ≤ sumZ l)%Z.
Proof. unfold sumZ. induction 1; simpl; lia. Qed.



(** ** Peak locator, continued *)

Lemma peakCtrOfGrav_is_Some (self : HoughSpiralCleaner)
    (houghSlice : list Z) (pkIdx : Z) :
  is_Some (peakCtrOfGrav self houghSlice pkIdx) ↔
  (pkIdx + peakWidth self ≤ Z.of_nat (length houghSlice) - 1)%Z ∧
  (pkIdx - peakWidth self ≤ Z.of_nat (length houghSlice))%Z.
Proof.
  unfold peakCtrOfGrav, peakWindow, windowValues, segment.
  destruct (decide _) as [Hr|Hr]; simpl.
  - split; [intros _; lia|by eauto].
  - split; [by intros [? ?]|]. intros Hc. destruct Hr. lia.
Qed.

(** The loop body of [findPeakRadiusBins] has a value exactly when the peak
    is at least peakWidth bins before the last bin of the slice (and, for a
    negative peakWidth, the lower bound does not pass the end): a peak closer
    to the upper end has a window that leaves the slice. *)
Theorem peakCtrOfGrav_defined (self : HoughSpiralCleaner)
    (houghSlice : list Z) (pkIdx : Z) :
  is_Some (peakCtrOfGrav self houghSlice pkIdx) ↔
  (pkIdx + peakWidth self ≤ Z.of_nat (length houghSlice) - 1)%Z ∧
  (pkIdx - peakWidth self ≤ Z.of_nat (length houghSlice))%Z.
Proof. apply peakCtrOfGrav_is_Some. Qed.

(** [findPeakRadiusBins] has a result exactly when every peak location that
    [findPeakLocations] reports is at least peakWidth bins before the last
    bin of the slice. *)
Theorem findPeakRadiusBins_defined
    (findPeakLocations : list Z → Z → list Z) (self : HoughSpiralCleaner)
    (houghSlice : list Z) :
  is_Some (findPeakRadiusBins findPeakLocations self houghSlice) ↔
  Forall (λ pkIdx,
            (pkIdx + peakWidth self ≤ Z.of_nat (length houghSlice) - 1)%Z ∧
            (pkIdx - peakWidth self ≤ Z.of_nat (length houghSlice))%Z)
    (findPeakLocations houghSlice 2%Z).
Proof.
  unfold findPeakRadiusBins. rewrite mapM_is_Some.
  apply Forall_iff. intros pkIdx. apply peakCtrOfGrav_is_Some.
Qed.

Lemma peakCtrOfGrav_window_witness :
  let self := {| numAngleBinsToReduce := 2; houghSpaceSliceSize := 1;
                 peakWidth := 1; minPointsPerLine := 2 |} in
  peakWindow self (Z.of_nat (length [0; 0; 1; 5; 1; 0; 0; 1; 0; 0]%Z)) 3
  = (Z.max (3 - 1) 0, Z.of_nat (length [0; 0; 1; 5; 1; 0; 0; 1; 0; 0]%Z) - 1)%Z.
Proof.
  intros self.
  exact (peakCtrOfGrav_window self [0; 0; 1; 5; 1; 0; 0; 1; 0; 0]%Z 3
           3.5%float eq_refl).
Defined.

(** ** Geometric transform, continued *)


Lemma binTotal_bounds_witness :
  let self := {| numAngleBinsToReduce := 2; houghSpaceSliceSize := 1;
                 peakWidth := 1; minPointsPerLine := 2 |} in
  let houghSpace := {| getNumBins := 3; getValueAtBin := λ i j, (i * j)%Z |} in
  let binTotal := foldl coefAdd (0, 0)%Z (topBins mergeSort self houghSpace) in
  (0 ≤ binTotal.1 ≤ 2 * (3 - 1))%Z ∧ (0 ≤ binTotal.2 ≤ 2 * (3 - 1))%Z.
Proof.
  intros self houghSpace.
  apply (binTotal_bounds mergeSort mergeSort_sortsLikeStdSort self houghSpace);
    simpl; lia.
Defined.
